(** * AICar: the autonomous driver of the race game

    A shallow embedding of [src/utils/AICar.ts] and the properties of its
    checkpoint cursor, decision pass, sensors and racing line.

    Numbers.  A JavaScript number is modelled as an exact extended real:
    a finite real, one of the two infinities, or NaN.  Arithmetic on finite
    values is exact (no rounding, no overflow, no signed zero); the
    non-finite values follow IEEE 754 as JavaScript does: a division by
    zero gives an infinity or NaN, NaN propagates, and every comparison
    with NaN is false.  The properties are stated so that they do not
    depend on the exactness: bounds and orderings that rounding keeps,
    results of loops for the runs that return, and hypotheses on the
    values the code computes rather than on the values its inputs would
    give in exact arithmetic.  Where binary64 arithmetic itself decides
    (the underflow of a squared distance), the lines concerned are
    modelled on binary64 numbers as well, in [Doubles].

    Missing classes.  [Car] (the base class) and [Track] are not part of
    the sources at hand.  The fields of [Car] that [AICar] reads or
    writes are record fields; the rest of its state is the abstract
    [hidden] component and its methods are the members of [CarBase]:
    functions on the car that return normally and draw no random number.
    [Track] is a record of its checkpoints and its boundary test, a
    function without effect.

    Effects.  A method body is a function from the state it starts in to
    an exception or a result and the state it ends in.  The state holds
    the object, the list of the calls made on the base class so far, and
    the count of the [Math.random] draws.  [Math.atan2] and the values
    [Math.random] returns are parameters. *)

From Stdlib Require Import Reals Lra Lia ZArith Bool String List.
From Stdlib Require PrimFloat.
Import ListNotations.

Set Implicit Arguments.

(** ** JavaScript numbers *)

Inductive number : Type :=
| Fin (r : R)
| PInf
| NInf
| NaN.

Module Num.
Local Open Scope R_scope.

Definition is_finite (a : number) : Prop :=
  match a with Fin _ => True | _ => False end.

Definition neg (a : number) : number :=
  match a with
  | Fin r => Fin (- r)
  | PInf => NInf
  | NInf => PInf
  | NaN => NaN
  end.

Definition add (a b : number) : number :=
  match a, b with
  | NaN, _ | _, NaN => NaN
  | Fin x, Fin y => Fin (x + y)
  | PInf, NInf | NInf, PInf => NaN
  | PInf, _ | _, PInf => PInf
  | NInf, _ | _, NInf => NInf
  end.

Definition sub (a b : number) : number := add a (neg b).

(** [r * (+oo)] when [pos], [r * (-oo)] otherwise. *)
Definition scale_inf (r : R) (pos : bool) : number :=
  if Rlt_dec 0 r then (if pos then PInf else NInf)
  else if Rlt_dec r 0 then (if pos then NInf else PInf)
  else NaN.

Definition mul (a b : number) : number :=
  match a, b with
  | NaN, _ | _, NaN => NaN
  | Fin x, Fin y => Fin (x * y)
  | Fin x, PInf | PInf, Fin x => scale_inf x true
  | Fin x, NInf | NInf, Fin x => scale_inf x false
  | PInf, PInf | NInf, NInf => PInf
  | PInf, NInf | NInf, PInf => NInf
  end.

(** Division; a zero divisor is taken as [+0]. *)
Definition div (a b : number) : number :=
  match a, b with
  | NaN, _ | _, NaN => NaN
  | Fin x, Fin y =>
      if Req_dec_T y 0 then
        (if Rlt_dec 0 x then PInf else if Rlt_dec x 0 then NInf else NaN)
      else Fin (x / y)
  | Fin _, _ => Fin 0
  | PInf, Fin y => if Rlt_dec y 0 then NInf else PInf
  | NInf, Fin y => if Rlt_dec y 0 then PInf else NInf
  | _, _ => NaN
  end.

Definition ltb (a b : number) : bool :=
  match a, b with
  | NaN, _ | _, NaN => false
  | Fin x, Fin y => if Rlt_dec x y then true else false
  | _, NInf => false
  | NInf, _ => true
  | PInf, _ => false
  | _, PInf => true
  end.

Definition gtb (a b : number) : bool := ltb b a.

Definition leb (a b : number) : bool :=
  match a, b with
  | NaN, _ | _, NaN => false
  | Fin x, Fin y => if Rle_dec x y then true else false
  | NInf, _ => true
  | _, PInf => true
  | _, _ => false
  end.

Definition geb (a b : number) : bool := leb b a.

(** [Math.abs], [Math.min], [Math.sqrt], [Math.sin], [Math.cos], [Math.PI] *)
Definition abs (a : number) : number :=
  match a with
  | Fin r => Fin (Rabs r)
  | PInf | NInf => PInf
  | NaN => NaN
  end.

Definition min (a b : number) : number :=
  match a, b with
  | NaN, _ | _, NaN => NaN
  | _, _ => if ltb a b then a else b
  end.

Definition sqrt (a : number) : number :=
  match a with
  | Fin r => if Rlt_dec r 0 then NaN else Fin (R_sqrt.sqrt r)
  | PInf => PInf
  | NInf | NaN => NaN
  end.

Definition sin (a : number) : number :=
  match a with Fin r => Fin (Rtrigo_def.sin r) | _ => NaN end.

Definition cos (a : number) : number :=
  match a with Fin r => Fin (Rtrigo_def.cos r) | _ => NaN end.

Definition PI : number := Fin Rtrigo1.PI.

Definition Infinity : number := PInf.

Definition of_nat (n : nat) : number := Fin (INR n).
End Num.

Declare Scope num_scope.
Delimit Scope num_scope with num.
Bind Scope num_scope with number.
Infix "+" := Num.add : num_scope.
Infix "-" := Num.sub : num_scope.
Infix "*" := Num.mul : num_scope.
Infix "/" := Num.div : num_scope.
Notation "- a" := (Num.neg a) : num_scope.
Infix "<?" := Num.ltb : num_scope.
Infix ">?" := Num.gtb : num_scope.
Infix ">=?" := Num.geb : num_scope.
Infix "<=?" := Num.leb : num_scope.

(** ** Exceptions and non-termination *)

(** A call either completes, throws a [TypeError] (a property read on
    [undefined]) or exhausts the bound put on its [while] loops; a call
    that runs forever exhausts every bound. *)
Inductive abort : Type :=
| TypeError
| OutOfFuel.

Definition exc (A : Type) : Type := (abort + A)%type.

Definition exc_bind {A B : Type} (m : exc A) (k : A -> exc B) : exc B :=
  match m with
  | inl e => inl e
  | inr a => k a
  end.

(** Reading a property of a possibly [undefined] value. *)
Definition defined {A : Type} (o : option A) : exc A :=
  match o with
  | Some a => inr a
  | None => inl TypeError
  end.

(** [arr[i]] for a numeric index: [undefined] outside the array. *)
Definition index {A : Type} (arr : list A) (i : Z) : option A :=
  if (i <? 0)%Z then None else nth_error arr (Z.to_nat i).

(** ** Data model *)

Module Point.
Record t : Type := mk { x : number; y : number }.
End Point.

Module Sensor.
Record t : Type := mk { angle : number; distance : number }.
End Sensor.

Module Track.
Record t : Type := mk {
  checkpoints : list Point.t;
  isPointOutOfBounds : number -> number -> bool
}.
End Track.

Module Car.
(** The public fields of the base class; [hidden] is the rest of its
    state.  [targetCheckpoint] is an integer index or [undefined]
    ([None]). *)
Record t (H : Type) : Type := mk {
  x : number;
  y : number;
  width : number;
  height : number;
  color : string;
  angle : number;
  maxVelocity : number;
  drifting : bool;
  targetCheckpoint : option Z;
  hidden : H
}.

Definition set_maxVelocity {H} (v : number) (c : t H) : t H :=
  mk (x c) (y c) (width c) (height c) (color c) (angle c)
     v (drifting c) (targetCheckpoint c) (hidden c).

Definition set_drifting {H} (b : bool) (c : t H) : t H :=
  mk (x c) (y c) (width c) (height c) (color c) (angle c)
     (maxVelocity c) b (targetCheckpoint c) (hidden c).

Definition set_targetCheckpoint {H} (i : option Z) (c : t H) : t H :=
  mk (x c) (y c) (width c) (height c) (color c) (angle c)
     (maxVelocity c) (drifting c) i (hidden c).
End Car.

(** The methods of the base class [Car] that [AICar] calls. *)
Class CarBase (H : Type) : Type := {
  Car_new : number -> number -> number -> number -> string -> number -> Car.t H;
  Car_update : number -> Car.t H -> Car.t H;
  Car_turnLeft : number -> Car.t H -> Car.t H;
  Car_turnRight : number -> Car.t H -> Car.t H;
  Car_accelerate : number -> Car.t H -> Car.t H;
  Car_releaseAccelerator : number -> Car.t H -> Car.t H;
  Car_brake : number -> Car.t H -> Car.t H;
  Car_activateBoost : Car.t H -> Car.t H;
  Car_deactivateBoost : Car.t H -> Car.t H;
  Car_getSpeed : Car.t H -> number
}.

(** The calls made on the base class, in program order. *)
Inductive Call : Type :=
| CUpdate (deltaTime : number)
| CTurnLeft (deltaTime : number)
| CTurnRight (deltaTime : number)
| CAccelerate (deltaTime : number)
| CReleaseAccelerator (deltaTime : number)
| CBrake (deltaTime : number)
| CActivateBoost
| CDeactivateBoost
| CGetSpeed (result : number).

Record AICar (H : Type) : Type := mkAICar {
  car : Car.t H;
  track : Track.t;
  difficulty : number;
  reactionTime : number;
  lastDecision : number;
  avoidanceSensors : list Sensor.t;
  racingLine : list Point.t;
  aggressiveness : number;
  driftProbability : number;
  preferredSpeed : number
}.

Definition set_car {H} (c : Car.t H) (a : AICar H) : AICar H :=
  mkAICar c (track a) (difficulty a) (reactionTime a) (lastDecision a)
    (avoidanceSensors a) (racingLine a) (aggressiveness a)
    (driftProbability a) (preferredSpeed a).

Definition set_lastDecision {H} (v : number) (a : AICar H) : AICar H :=
  mkAICar (car a) (track a) (difficulty a) (reactionTime a) v
    (avoidanceSensors a) (racingLine a) (aggressiveness a)
    (driftProbability a) (preferredSpeed a).

Definition set_aggressiveness {H} (v : number) (a : AICar H) : AICar H :=
  mkAICar (car a) (track a) (difficulty a) (reactionTime a) (lastDecision a)
    (avoidanceSensors a) (racingLine a) v
    (driftProbability a) (preferredSpeed a).

(** The state a call of [update] runs in: the object, the calls it has made
    on its base class, and the number of [Math.random] draws so far. *)
Record World (H : Type) : Type := mkWorld {
  this : AICar H;
  calls : list Call;
  draws : nat
}.

(** ** The state and exception monad of a method body *)

Definition M (H A : Type) : Type := World H -> exc (A * World H).

Definition ret {H A} (a : A) : M H A := fun w => inr (a, w).

Definition bind {H A B} (m : M H A) (k : A -> M H B) : M H B :=
  fun w =>
    match m w with
    | inl e => inl e
    | inr (a, w') => k a w'
    end.

Definition lift {H A} (m : exc A) : M H A :=
  fun w =>
    match m with
    | inl e => inl e
    | inr a => inr (a, w)
    end.

Declare Scope js_scope.
Delimit Scope js_scope with js.
Notation "x <- m ;; k" := (bind m (fun x => k))
  (at level 61, m at next level, right associativity) : js_scope.
Notation "m ;; k" := (bind m (fun _ => k))
  (at level 61, right associativity) : js_scope.
Notation "x <~ m ;; k" := (exc_bind m (fun x => k))
  (at level 61, m at next level, right associativity) : js_scope.

Section AICarClass.
Context {H : Type} {base : CarBase H}.

(** [Math.atan2] and the sequence of values [Math.random] returns. *)
Variable Math_atan2 : number -> number -> number.
Variable Math_random : nat -> number.

Local Open Scope num_scope.
Local Open Scope js_scope.

(** *** Reading and writing [this] *)

Definition read {A} (f : AICar H -> A) : M H A :=
  fun w => inr (f (this w), w).

Definition write (f : AICar H -> AICar H) : M H unit :=
  fun w => inr (tt, mkWorld (f (this w)) (calls w) (draws w)).

(** A base-class method that changes the car. *)
Definition invoke (c : Call) (f : Car.t H -> Car.t H) : M H unit :=
  fun w =>
    inr (tt, mkWorld (set_car (f (car (this w))) (this w))
               (calls w ++ [c]) (draws w)).

Definition turnLeft (dt : number) : M H unit :=
  invoke (CTurnLeft dt) (Car_turnLeft dt).
Definition turnRight (dt : number) : M H unit :=
  invoke (CTurnRight dt) (Car_turnRight dt).
Definition accelerate (dt : number) : M H unit :=
  invoke (CAccelerate dt) (Car_accelerate dt).
Definition releaseAccelerator (dt : number) : M H unit :=
  invoke (CReleaseAccelerator dt) (Car_releaseAccelerator dt).
Definition brake (dt : number) : M H unit :=
  invoke (CBrake dt) (Car_brake dt).
Definition activateBoost : M H unit :=
  invoke CActivateBoost Car_activateBoost.
Definition deactivateBoost : M H unit :=
  invoke CDeactivateBoost Car_deactivateBoost.
Definition super_update (dt : number) : M H unit :=
  invoke (CUpdate dt) (Car_update dt).

Definition getSpeed : M H number :=
  fun w =>
    let v := Car_getSpeed (car (this w)) in
    inr (v, mkWorld (this w) (calls w ++ [CGetSpeed v]) (draws w)).

Definition random : M H number :=
  fun w =>
    inr (Math_random (draws w), mkWorld (this w) (calls w) (S (draws w))).

Definition set_drifting (b : bool) : M H unit :=
  write (fun a => set_car (Car.set_drifting b (car a)) a).

(** *** calculateRacingLine (lines 43-73) *)

Definition segments : nat := 5.

(** The divisor [length] of lines 50-53. *)
Definition legLength (checkpoint nextCheckpoint : Point.t) : number :=
  let dx := Point.x nextCheckpoint - Point.x checkpoint in
  let dy := Point.y nextCheckpoint - Point.y checkpoint in
  Num.sqrt (dx * dx + dy * dy).

(** The body of the outer loop for one leg; the inner loop runs
    [j = 0 .. segments]. *)
Definition legPoints (checkpoint nextCheckpoint : Point.t) : list Point.t :=
  let dx := Point.x nextCheckpoint - Point.x checkpoint in
  let dy := Point.y nextCheckpoint - Point.y checkpoint in
  let length := legLength checkpoint nextCheckpoint in
  let nx := dx / length in
  let ny := dy / length in
  let px := - ny in
  let py := nx in
  map (fun j =>
         let t := Num.of_nat j / Num.of_nat segments in
         let curveFactor := Num.sin (t * Num.PI) * Fin 30 in
         Point.mk (Point.x checkpoint + dx * t + px * curveFactor)
                  (Point.y checkpoint + dy * t + py * curveFactor))
      (seq 0 (S segments)).

(** One iteration of the outer loop, at index [i]. *)
Definition legAt (cps : list Point.t) (i : nat) : exc (list Point.t) :=
  checkpoint <~ defined (nth_error cps i) ;;
  nextCheckpoint <~ defined (nth_error cps ((i + 1) mod length cps)) ;;
  inr (legPoints checkpoint nextCheckpoint).

Definition calculateRacingLine (tr : Track.t) : exc (list Point.t) :=
  let cps := Track.checkpoints tr in
  fold_left
    (fun acc i =>
       points <~ acc ;;
       leg <~ legAt cps i ;;
       inr (points ++ leg))
    (seq 0 (length cps)) (inr []).

(** *** constructor (lines 15-41) *)

Definition defaultSensors : list Sensor.t :=
  [ Sensor.mk (Fin (-0.5)) (Fin 80);
    Sensor.mk (Fin 0) (Fin 100);
    Sensor.mk (Fin 0.5) (Fin 80) ].

(** [difficulty] is [None] when the argument is omitted. *)
Definition constructor (x y width height : number) (color : string)
    (angle : number) (tr : Track.t) (difficulty : option number)
  : exc (AICar H) :=
  let difficulty :=
    match difficulty with Some d => d | None => Fin 0.85 end in
  let c := Car_new x y width height color angle in
  let c := Car.set_targetCheckpoint (Some 0%Z) c in
  let c := Car.set_maxVelocity (Fin 280 + difficulty * Fin 40) c in
  line <~ calculateRacingLine tr ;;
  inr (mkAICar c tr difficulty
         (Fin 0.2 - difficulty * Fin 0.1)
         (Fin 0)
         defaultSensors
         line
         (difficulty * Fin 0.8)
         (difficulty * Fin 0.3)
         (Fin 220 + difficulty * Fin 80)).

(** *** getTargetRacingPoint (lines 75-95) *)

(** The search loop from index [i] on; returns [closestIndex]. *)
Fixpoint closestLoop (x y : number) (pts : list Point.t) (i : nat)
    (closestDist : number) (closestIndex : nat) : nat :=
  match pts with
  | [] => closestIndex
  | point :: rest =>
      let dx := Point.x point - x in
      let dy := Point.y point - y in
      let dist := Num.sqrt (dx * dx + dy * dy) in
      if dist <? closestDist
      then closestLoop x y rest (S i) dist i
      else closestLoop x y rest (S i) closestDist closestIndex
  end.

(** [None] is [undefined]: the racing line is empty. *)
Definition getTargetRacingPoint (a : AICar H) : option Point.t :=
  let closestIndex :=
    closestLoop (Car.x (car a)) (Car.y (car a)) (racingLine a) 0
      Num.Infinity 0 in
  let lookAheadIndex := ((closestIndex + 10) mod length (racingLine a))%nat in
  nth_error (racingLine a) lookAheadIndex.

(** *** checkSensors (lines 169-181) *)

Definition checkSensors (a : AICar H) : list number :=
  map (fun sensor =>
         let sensorAngle := Car.angle (car a) + Sensor.angle sensor in
         let projectedX :=
           Car.x (car a) + Num.sin sensorAngle * Sensor.distance sensor in
         let projectedY :=
           Car.y (car a) - Num.cos sensorAngle * Sensor.distance sensor in
         let isOutOfBounds :=
           Track.isPointOutOfBounds (track a) projectedX projectedY in
         if negb isOutOfBounds then Fin 1.0 else Fin 0.5)
      (avoidanceSensors a).

(** *** distanceToPlayer, distanceToCheckpoint (lines 183-196) *)

Definition distanceToPlayer (a : AICar H) (playerCar : Car.t H) : number :=
  let dx := Car.x playerCar - Car.x (car a) in
  let dy := Car.y playerCar - Car.y (car a) in
  Num.sqrt (dx * dx + dy * dy).

Definition distanceToCheckpoint (a : AICar H) : exc number :=
  match Car.targetCheckpoint (car a) with
  | None => inr (Fin 1000)
  | Some i =>
      checkpoint <~ defined (index (Track.checkpoints (track a)) i) ;;
      let dx := Point.x checkpoint - Car.x (car a) in
      let dy := Point.y checkpoint - Car.y (car a) in
      inr (Num.sqrt (dx * dx + dy * dy))
  end.

(** *** isAheadOf (lines 203-220) *)

Definition isAheadOf (a : AICar H) (otherCar : Car.t H) : exc bool :=
  match Car.targetCheckpoint (car a), Car.targetCheckpoint otherCar with
  | None, _ | _, None => inr false
  | Some mine, Some theirs =>
      if (mine >? theirs)%Z then inr true
      else if (mine =? theirs)%Z then
        myDistance <~ distanceToCheckpoint a ;;
        checkpoint <~ defined (index (Track.checkpoints (track a)) mine) ;;
        let dx := Point.x checkpoint - Car.x otherCar in
        let dy := Point.y checkpoint - Car.y otherCar in
        let otherDistance := Num.sqrt (dx * dx + dy * dy) in
        inr (myDistance <? otherDistance)
      else inr false
  end.

(** *** makeDecisions (lines 113-167) *)

(** [while (angleDiff > Math.PI) angleDiff -= Math.PI * 2;] *)
Fixpoint whileAbove (fuel : nat) (angleDiff : number) : exc number :=
  if angleDiff >? Num.PI then
    match fuel with
    | O => inl OutOfFuel
    | S fuel' => whileAbove fuel' (angleDiff - Num.PI * Fin 2)
    end
  else inr angleDiff.

(** [while (angleDiff < -Math.PI) angleDiff += Math.PI * 2;] *)
Fixpoint whileBelow (fuel : nat) (angleDiff : number) : exc number :=
  if angleDiff <? - Num.PI then
    match fuel with
    | O => inl OutOfFuel
    | S fuel' => whileBelow fuel' (angleDiff + Num.PI * Fin 2)
    end
  else inr angleDiff.

(** Lines 120-122: the heading error of a bearing. *)
Definition angleDiffOf (fuel : nat) (targetAngle angle : number)
  : exc number :=
  let angleDiff := targetAngle - angle in
  angleDiff <~ whileAbove fuel angleDiff ;;
  whileBelow fuel angleDiff.

(** Lines 114-122. *)
Definition headingError (fuel : nat) (a : AICar H) : exc number :=
  racingTarget <~ defined (getTargetRacingPoint a) ;;
  let dx := Point.x racingTarget - Car.x (car a) in
  let dy := Point.y racingTarget - Car.y (car a) in
  let targetAngle := Math_atan2 dx (- dy) in
  angleDiffOf fuel targetAngle (Car.angle (car a)).

(** Line 125: [sensorReadings.some(r => r < 1.0)]. *)
Definition hasCollisionAhead (sensorReadings : list number) : bool :=
  existsb (fun r => r <? Fin 1.0) sensorReadings.

(** Lines 127-132. *)
Definition steer (angleDiff : number) (collision : bool) : M H unit :=
  let steeringFactor := if collision then Fin 1.5 else Fin 1.0 in
  if angleDiff >? Fin 0.1 then
    rt <- read (@reactionTime H) ;;
    turnRight (rt * steeringFactor)
  else if angleDiff <? Fin (-0.1) then
    rt <- read (@reactionTime H) ;;
    turnLeft (rt * steeringFactor)
  else ret tt.

(** Short-circuit [&&]. *)
Definition andThen (a b : M H bool) : M H bool :=
  x <- a ;; if x then b else ret false.

(** Lines 135-139. *)
Definition decideDrift (angleDiff : number) : M H unit :=
  roll <- andThen (ret (Num.abs angleDiff >? Fin 0.4))
            (andThen (v <- getSpeed ;;
                      p <- read (@preferredSpeed H) ;;
                      ret (v >? p * Fin 0.7))
                     (r <- random ;;
                      p <- read (@driftProbability H) ;;
                      ret (r <? p))) ;;
  if roll then set_drifting true else set_drifting false.

(** Lines 141-145. *)
Definition throttle : M H unit :=
  v <- getSpeed ;;
  p <- read (@preferredSpeed H) ;;
  if v <? p then
    rt <- read (@reactionTime H) ;; accelerate rt
  else
    rt <- read (@reactionTime H) ;; releaseAccelerator rt.

(** Lines 147-155. *)
Definition decideBoost (playerCar : Car.t H) : M H unit :=
  isAheadOfPlayer <- (a <- read (fun a => a) ;; lift (isAheadOf a playerCar)) ;;
  shouldBoost <-
    (if negb isAheadOfPlayer then ret true
     else andThen (a <- read (fun a => a) ;;
                   d <- lift (distanceToCheckpoint a) ;;
                   ret (d >? Fin 150))
                  (r <- random ;;
                   d <- read (@difficulty H) ;;
                   ret (r <? d * Fin 0.2))) ;;
  roll <- andThen (ret shouldBoost)
            (r <- random ;;
             g <- read (@aggressiveness H) ;;
             ret (r <? g * Fin 0.2)) ;;
  if roll then activateBoost else deactivateBoost.

(** Lines 134-160. *)
Definition throttlePolicy (angleDiff : number) (collision : bool)
    (playerCar : Car.t H) : M H unit :=
  if negb collision && (Num.abs angleDiff <? Fin 0.8) then
    decideDrift angleDiff ;;
    throttle ;;
    decideBoost playerCar
  else
    rt <- read (@reactionTime H) ;;
    brake rt ;;
    deactivateBoost ;;
    set_drifting false.

(** Lines 162-166. *)
Definition adaptAggressiveness (playerCar : Car.t H) : M H unit :=
  a <- read (fun a => a) ;;
  if distanceToPlayer a playerCar <? Fin 100 then
    write (set_aggressiveness
             (Num.min (Fin 1.0) (aggressiveness a + Fin 0.1)))
  else
    write (set_aggressiveness (difficulty a * Fin 0.8)).

Definition makeDecisions (fuel : nat) (playerCar : Car.t H) : M H unit :=
  a <- read (fun a => a) ;;
  angleDiff <- lift (headingError fuel a) ;;
  let collision := hasCollisionAhead (checkSensors a) in
  steer angleDiff collision ;;
  throttlePolicy angleDiff collision playerCar ;;
  adaptAggressiveness playerCar.

(** *** update (lines 97-111) *)

(** Lines 107-110. *)
Definition advanceCheckpoint : M H unit :=
  a <- read (fun a => a) ;;
  distance <- lift (distanceToCheckpoint a) ;;
  if distance <? Fin 50 then
    match Car.targetCheckpoint (car a) with
    | Some i =>
        let n := Z.of_nat (length (Track.checkpoints (track a))) in
        write (set_car (Car.set_targetCheckpoint
                          (Some (Z.rem (i + 1) n)) (car a)))
    | None => ret tt   (* not reached: the distance is then 1000 *)
    end
  else ret tt.

(** [playerCar] is [None] when the argument is omitted. *)
Definition update (fuel : nat) (deltaTime : number)
    (playerCar : option (Car.t H)) : M H unit :=
  write (fun a => set_lastDecision (lastDecision a + deltaTime) a) ;;
  a <- read (fun a => a) ;;
  (match lastDecision a >=? reactionTime a, playerCar with
   | true, Some p =>
       write (set_lastDecision (Fin 0)) ;;
       makeDecisions fuel p
   | _, _ => ret tt
   end) ;;
  super_update deltaTime ;;
  advanceCheckpoint.

End AICarClass.

(** * Vocabulary of the properties *)

Unset Implicit Arguments.

Section Vocabulary.
Context {H : Type} {base : CarBase H}.
Variable Math_atan2 : number -> number -> number.
Variable Math_random : nat -> number.

(** A finite number or NaN. *)
Definition notInfinite (a : number) : Prop := a <> PInf /\ a <> NInf.

(** Both coordinates are finite numbers. *)
Definition finitePoint (p : Point.t) : Prop :=
  Num.is_finite (Point.x p) /\ Num.is_finite (Point.y p).


(** The sum [dx * dx + dy * dy] of line 53, as the code computes it; the
    divisor [length] is its square root. *)
Definition squaredLength (checkpoint nextCheckpoint : Point.t) : number :=
  let dx := Num.sub (Point.x nextCheckpoint) (Point.x checkpoint) in
  let dy := Num.sub (Point.y nextCheckpoint) (Point.y checkpoint) in
  Num.add (Num.mul dx dx) (Num.mul dy dy).

(** A body relates the state it starts in to the state it returns in. *)
Definition preserves {A : Type} (R : World H -> World H -> Prop)
    (m : M H A) : Prop :=
  forall w a w', m w = inr (a, w') -> R w w'.

(** Relations that compose along a sequence of statements. *)
Class Steps (R : World H -> World H -> Prop) : Prop := {
  steps_refl : forall w, R w w;
  steps_trans : forall w1 w2 w3, R w1 w2 -> R w2 w3 -> R w1 w3
}.

(** Only the car part of the object changed. *)
Definition onlyCar (w w' : World H) : Prop :=
  this w' = set_car (car (this w')) (this w).

(** A field of the world kept its value. *)
Definition keeps {X : Type} (f : World H -> X) (w w' : World H) : Prop :=
  f w' = f w.

(** The checkpoint cursor of the object. *)
Definition cursor (w : World H) : option Z :=
  Car.targetCheckpoint (car (this w)).

(** What the base class is expected to leave alone: no method of [Car]
    called here moves the checkpoint cursor. *)
Record BaseKeepsCursor : Prop := {
  update_cursor : forall dt c,
    Car.targetCheckpoint (Car_update dt c) = Car.targetCheckpoint c;
  turnLeft_cursor : forall dt c,
    Car.targetCheckpoint (Car_turnLeft dt c) = Car.targetCheckpoint c;
  turnRight_cursor : forall dt c,
    Car.targetCheckpoint (Car_turnRight dt c) = Car.targetCheckpoint c;
  accelerate_cursor : forall dt c,
    Car.targetCheckpoint (Car_accelerate dt c) = Car.targetCheckpoint c;
  releaseAccelerator_cursor : forall dt c,
    Car.targetCheckpoint (Car_releaseAccelerator dt c)
    = Car.targetCheckpoint c;
  brake_cursor : forall dt c,
    Car.targetCheckpoint (Car_brake dt c) = Car.targetCheckpoint c;
  activateBoost_cursor : forall c,
    Car.targetCheckpoint (Car_activateBoost c) = Car.targetCheckpoint c;
  deactivateBoost_cursor : forall c,
    Car.targetCheckpoint (Car_deactivateBoost c) = Car.targetCheckpoint c
}.

(** The calls of the steering block: none or one turn. *)
Definition isTurn (l : list Call) : Prop :=
  l = [] \/ (exists dt, l = [CTurnRight dt]) \/ (exists dt, l = [CTurnLeft dt]).

(** The calls of the drift roll: none or one speed reading. *)
Definition isProbe (l : list Call) : Prop :=
  l = [] \/ exists v, l = [CGetSpeed v].

(** The call of the boost decision. *)
Definition isBoost (c : Call) : Prop :=
  c = CActivateBoost \/ c = CDeactivateBoost.

(** The cursor is [undefined] or the index of a checkpoint. *)
Definition cursorValid (w : World H) : Prop :=
  match cursor w with
  | None => True
  | Some i => exists c, index (Track.checkpoints (track (this w))) i = Some c
  end.

(** What the pass needs to run to its end. *)
Record Ready (w : World H) : Prop := {
  ready_line : racingLine (this w) <> [];
  ready_cursor : cursorValid w;
  ready_angle : notInfinite (Car.angle (car (this w)))
}.

(** [Math.atan2] returns an angle or NaN, never an infinity. *)
Definition Atan2Bounded : Prop :=
  forall a b, notInfinite (Math_atan2 a b).

(** The fields no method of [AICar] assigns after construction. *)
Definition config (a : AICar H) :=
  (track a, difficulty a, reactionTime a, avoidanceSensors a, racingLine a,
   driftProbability a, preferredSpeed a).

(** Line 98. *)
Definition ticked (dt : number) (w : World H) : World H :=
  mkWorld (set_lastDecision (Num.add (lastDecision (this w)) dt) (this w))
    (calls w) (draws w).

(** Line 101. *)
Definition rearmed (w : World H) : World H :=
  mkWorld (set_lastDecision (Fin 0) (this w)) (calls w) (draws w).

(** Line 105. *)
Definition moved (dt : number) (w : World H) : World H :=
  mkWorld (set_car (Car_update dt (car (this w))) (this w))
    (calls w ++ [CUpdate dt]) (draws w).

(** The guard of line 100: the opponent a decision pass runs against. *)
Definition passDue (dt : number) (playerCar : option (Car.t H))
    (w : World H) : option (Car.t H) :=
  if Num.geb (Num.add (lastDecision (this w)) dt) (reactionTime (this w))
  then playerCar else None.

(** Lines 107-110 on the state [w]. *)
Definition advanced (w : World H) : World H :=
  match Car.targetCheckpoint (car (this w)) with
  | Some i =>
      mkWorld
        (set_car
           (Car.set_targetCheckpoint
              (Some (Z.rem (i + 1)
                       (Z.of_nat (length (Track.checkpoints (track (this w)))))))
              (car (this w)))
           (this w))
        (calls w) (draws w)
  | None => w
  end.

(** [this.track.checkpoints.length] *)
Definition checkpointCount (w : World H) : Z :=
  Z.of_nat (length (Track.checkpoints (track (this w)))).


(** Any number of decision passes and calls of [update], one after the
    other, each of which returned. *)
Inductive runs : World H -> World H -> Prop :=
| runs_here (w : World H) : runs w w
| runs_pass (w w1 w2 : World H) fuel p :
    runs w w1 ->
    makeDecisions Math_atan2 Math_random fuel p w1 = inr (tt, w2) ->
    runs w w2
| runs_update (w w1 w2 : World H) fuel dt playerCar :
    runs w w1 ->
    update Math_atan2 Math_random fuel dt playerCar w1 = inr (tt, w2) ->
    runs w w2.

(** Difficulty [d] and an aggressiveness in [0, 1]. *)
Definition tempered (d : R) (a : AICar H) : Prop :=
  difficulty a = Fin d
  /\ exists g, aggressiveness a = Fin g /\ (0 <= g <= 1)%R.

(** The end point of the ray at offset [off] and range [dist]. *)
Definition rayEnd (a : AICar H) (off dist : number) : number * number :=
  let sensorAngle := Num.add (Car.angle (car a)) off in
  (Num.add (Car.x (car a)) (Num.mul (Num.sin sensorAngle) dist),
   Num.sub (Car.y (car a)) (Num.mul (Num.cos sensorAngle) dist)).

(** The end point of the ray is out of bounds. *)
Definition rayOut (a : AICar H) (off dist : number) : bool :=
  Track.isPointOutOfBounds (track a)
    (fst (rayEnd a off dist)) (snd (rayEnd a off dist)).

(** The reading of the ray: 1.0 in bounds, 0.5 out of bounds. *)
Definition reading (a : AICar H) (off dist : number) : number :=
  if rayOut a off dist then Fin 0.5 else Fin 1.0.

(** The distance from the point [(x, y)] to a checkpoint. *)
Definition distanceTo (checkpoint : Point.t) (x y : number) : number :=
  let dx := Num.sub (Point.x checkpoint) x in
  let dy := Num.sub (Point.y checkpoint) y in
  Num.sqrt (Num.add (Num.mul dx dx) (Num.mul dy dy)).

(** The car [a] is ahead of [otherCar]: a greater cursor, or the same
    cursor and a smaller distance to the checkpoint it indexes. *)
Definition ahead (a : AICar H) (otherCar : Car.t H) : Prop :=
  exists mine theirs,
    Car.targetCheckpoint (car a) = Some mine
    /\ Car.targetCheckpoint otherCar = Some theirs
    /\ ((mine > theirs)%Z
        \/ (mine = theirs
            /\ exists checkpoint,
                index (Track.checkpoints (track a)) mine = Some checkpoint
                /\ Num.ltb
                     (distanceTo checkpoint (Car.x (car a)) (Car.y (car a)))
                     (distanceTo checkpoint (Car.x otherCar) (Car.y otherCar))
                   = true)).

End Vocabulary.

Arguments Steps {H} R.

(** * A concrete car, track and driver *)

Module PlainCar.

(** A stand-in for the private state of the missing class [Car]: a
    scalar forward speed and a boost flag. *)
Record state : Type := mk { velocity : number; boosting : bool }.

Definition set_velocity (v : number) (c : Car.t state) : Car.t state :=
  Car.mk (Car.x c) (Car.y c) (Car.width c) (Car.height c) (Car.color c)
    (Car.angle c) (Car.maxVelocity c) (Car.drifting c)
    (Car.targetCheckpoint c) (mk v (boosting (Car.hidden c))).

Definition set_boosting (b : bool) (c : Car.t state) : Car.t state :=
  Car.mk (Car.x c) (Car.y c) (Car.width c) (Car.height c) (Car.color c)
    (Car.angle c) (Car.maxVelocity c) (Car.drifting c)
    (Car.targetCheckpoint c) (mk (velocity (Car.hidden c)) b).

Definition set_angle (a : number) (c : Car.t state) : Car.t state :=
  Car.mk (Car.x c) (Car.y c) (Car.width c) (Car.height c) (Car.color c)
    a (Car.maxVelocity c) (Car.drifting c)
    (Car.targetCheckpoint c) (Car.hidden c).

Definition set_position (x y : number) (c : Car.t state) : Car.t state :=
  Car.mk x y (Car.width c) (Car.height c) (Car.color c)
    (Car.angle c) (Car.maxVelocity c) (Car.drifting c)
    (Car.targetCheckpoint c) (Car.hidden c).

Definition floor0 (v : number) : number :=
  if Num.ltb v (Fin 0) then Fin 0 else v.

(** A stand-in for the methods of the missing class [Car], on which the
    code is run on concrete objects; the properties themselves are proved
    for every instance of [CarBase].  It is a plain car, not the [Car] of
    the specification: [accelerate] raises the speed towards the maximum,
    [brake] and [releaseAccelerator] lower it towards zero, the turns
    rotate the heading in proportion to the elapsed time alone, the boost
    calls set the flag, and [update] moves the position by
    [speed * dt * (sin heading, - cos heading)].  The rates are arbitrary,
    and there is no drift displacement, no clamp of the speed in [update],
    no normalization of the heading and no special case for an elapsed
    time that is not positive. *)
#[global] Instance base : CarBase state := {
  Car_new x y width height color angle :=
    Car.mk x y width height color angle (Fin 300) false (Some 0%Z)
      (mk (Fin 0) false);
  Car_update dt c :=
    let v := velocity (Car.hidden c) in
    set_position
      (Num.add (Car.x c) (Num.mul (Num.mul v dt) (Num.sin (Car.angle c))))
      (Num.sub (Car.y c) (Num.mul (Num.mul v dt) (Num.cos (Car.angle c))))
      c;
  Car_turnLeft dt c :=
    set_angle (Num.sub (Car.angle c) (Num.mul (Fin 3) dt)) c;
  Car_turnRight dt c :=
    set_angle (Num.add (Car.angle c) (Num.mul (Fin 3) dt)) c;
  Car_accelerate dt c :=
    set_velocity
      (Num.min (Car.maxVelocity c)
         (Num.add (velocity (Car.hidden c)) (Num.mul (Fin 200) dt))) c;
  Car_releaseAccelerator dt c :=
    set_velocity
      (floor0 (Num.sub (velocity (Car.hidden c)) (Num.mul (Fin 100) dt))) c;
  Car_brake dt c :=
    set_velocity
      (floor0 (Num.sub (velocity (Car.hidden c)) (Num.mul (Fin 400) dt))) c;
  Car_activateBoost c := set_boosting true c;
  Car_deactivateBoost c := set_boosting false c;
  Car_getSpeed c := velocity (Car.hidden c)
}.

End PlainCar.

Module Demo.

Definition course : Track.t :=
  Track.mk
    [Point.mk (Fin 0) (Fin 0);
     Point.mk (Fin 100) (Fin 0);
     Point.mk (Fin 100) (Fin 100)]
    (fun _ _ => false).

(** Stand-ins for [Math.atan2] and [Math.random]. *)
Definition atan2 : number -> number -> number := fun _ _ => Fin 0.
Definition random : nat -> number := fun _ => Fin 0.5.

Definition player : Car.t PlainCar.state :=
  Car_new (Fin 40) (Fin 0) (Fin 20) (Fin 40) "blue" (Fin 0).

(** The object [new AICar(0, 0, 20, 40, "red", 0, course)], difficulty
    omitted. *)
Definition built : exc (AICar PlainCar.state) :=
  constructor (Fin 0) (Fin 0) (Fin 20) (Fin 40) "red" (Fin 0) course None.

Definition driverWith (line : list Point.t) : AICar PlainCar.state :=
  mkAICar
    (Car.set_maxVelocity (Num.add (Fin 280) (Num.mul (Fin 0.85) (Fin 40)))
       (Car.set_targetCheckpoint (Some 0%Z)
          (Car_new (Fin 0) (Fin 0) (Fin 20) (Fin 40) "red" (Fin 0))))
    course (Fin 0.85)
    (Num.sub (Fin 0.2) (Num.mul (Fin 0.85) (Fin 0.1)))
    (Fin 0) defaultSensors line
    (Num.mul (Fin 0.85) (Fin 0.8))
    (Num.mul (Fin 0.85) (Fin 0.3))
    (Num.add (Fin 220) (Num.mul (Fin 0.85) (Fin 80))).

Definition driver : AICar PlainCar.state :=
  match built with
  | inr a => a
  | inl _ => driverWith []
  end.

Definition world : World PlainCar.state := mkWorld driver [] 0.

End Demo.

(** * More of the code *)

(** [Math.max] *)
Definition Math_max (a b : number) : number :=
  match a, b with
  | NaN, _ | _, NaN => NaN
  | _, _ => if Num.ltb a b then b else a
  end.

Section MoreAICar.
Context {H : Type} {base : CarBase H}.
Variable Math_atan2 : number -> number -> number.
Variable Math_random : nat -> number.

(** checkCollisionAhead (lines 198-201); with fewer than two sensors the
    reading is [undefined] and the comparison is false. *)
Definition checkCollisionAhead (a : AICar H) : bool :=
  match nth_error (checkSensors a) 1 with
  | Some centralSensor => Num.ltb centralSensor (Fin 0.8)
  | None => false
  end.

(** [n] decision passes in a row, each of which returned and ended with
    the car at a finite position [(x, y)], the opponent at a finite
    position [(px, py)], and a straight-line distance between the two
    below 100. *)
Inductive nearPasses : nat -> World H -> World H -> Prop :=
| nearPasses_none (w : World H) : nearPasses 0 w w
| nearPasses_more (n : nat) (w w1 w2 : World H) fuel p (x y px py : R) :
    nearPasses n w w1 ->
    makeDecisions Math_atan2 Math_random fuel p w1 = inr (tt, w2) ->
    Car.x (car (this w2)) = Fin x -> Car.y (car (this w2)) = Fin y ->
    Car.x p = Fin px -> Car.y p = Fin py ->
    (sqrt ((px - x) * (px - x) + (py - y) * (py - y)) < 100)%R ->
    nearPasses (S n) w w2.

(** A call of [turnLeft] or [turnRight]. *)
Definition isTurnCall (c : Call) : bool :=
  match c with
  | CTurnLeft _ | CTurnRight _ => true
  | _ => false
  end.

(** The calls of lines 127-132 for a heading error, a collision flag and
    a reaction time. *)
Definition turnFor (angleDiff : number) (collision : bool)
    (reactionTime : number) : list Call :=
  let steeringFactor := if collision then Fin 1.5 else Fin 1.0 in
  if Num.gtb angleDiff (Fin 0.1)
  then [CTurnRight (Num.mul reactionTime steeringFactor)]
  else if Num.ltb angleDiff (Fin (-0.1))
       then [CTurnLeft (Num.mul reactionTime steeringFactor)]
       else [].

(** What the search loop of lines 80-91 has found after the points
    [seen], for a car at [(x0, y0)]: nothing yet, or the first of the
    points at the least distance. *)
Definition closestSoFar (x0 y0 : R) (seen : list Point.t)
    (closestDist : number) (closestIndex : nat) : Prop :=
  (seen = [] /\ closestDist = PInf /\ closestIndex = 0%nat)
  \/ exists p d,
      nth_error seen closestIndex = Some p
      /\ distanceTo p (Fin x0) (Fin y0) = Fin d
      /\ closestDist = Fin d
      /\ forall j q, nth_error seen j = Some q ->
           exists e, distanceTo q (Fin x0) (Fin y0) = Fin e
                     /\ (d <= e)%R /\ ((j < closestIndex)%nat -> (d < e)%R).

(** At most [k] values of [Math.random] were drawn. *)
Definition drawsUpTo (k : nat) (w w' : World H) : Prop :=
  (draws w <= draws w' <= draws w + k)%nat.

End MoreAICar.

(** ** GameCanvas.tsx: the state updaters and the camera cycle *)

Module GameCanvas.

Inductive AiType : Type := basic | enhanced.

(** The state [gameStats] (lines 43-54). *)
Record GameStats : Type := mkStats {
  speed : number;
  lap : number;
  bestLapTime : number;
  currentLapTime : number;
  raceTime : number;
  boost : number;
  driftDistance : number;
  boostTime : number;
  sensorReadings : list number;
  aiType : AiType
}.

Definition initialStats : GameStats :=
  mkStats (Fin 0) (Fin 0) Num.Infinity (Fin 0) (Fin 0) (Fin 100) (Fin 0)
    (Fin 0) [] enhanced.

(** The updater of lines 257-261 (and 421-425): boost held. *)
Definition drainBoost (deltaTime : number) (prev : GameStats) : GameStats :=
  mkStats (speed prev) (lap prev) (bestLapTime prev) (currentLapTime prev)
    (raceTime prev)
    (Math_max (Fin 0) (Num.sub (boost prev) (Fin 1)))
    (driftDistance prev)
    (Num.add (boostTime prev) deltaTime)
    (sensorReadings prev) (aiType prev).

(** The updater of lines 264-267 (and 428-431): boost released. *)
Definition refillBoost (prev : GameStats) : GameStats :=
  mkStats (speed prev) (lap prev) (bestLapTime prev) (currentLapTime prev)
    (raceTime prev)
    (Num.min (Fin 100) (Num.add (boost prev) (Fin 0.2)))
    (driftDistance prev) (boostTime prev)
    (sensorReadings prev) (aiType prev).

(** Lines 254-268: the updater a tick queues.  The guard reads the state
    [seen] the loop closed over; the updater is applied to [prev]. *)
Definition boostUpdater (spaceHeld : bool) (seen : GameStats)
    (deltaTime : number) : GameStats -> GameStats :=
  if (spaceHeld && Num.gtb (boost seen) (Fin 0))%bool
  then drainBoost deltaTime
  else refillBoost.

(** Lines 301-309: the updater queued when the finish is crossed; the lap
    time and the lap number are read from the state [seen]. *)
Definition completeLap (seen prev : GameStats) : GameStats :=
  let lapTime := currentLapTime seen in
  let newLap := Num.add (lap seen) (Fin 1) in
  mkStats (speed prev) newLap
    (if Num.ltb lapTime (bestLapTime prev) then lapTime else bestLapTime prev)
    (Fin 0)
    (raceTime prev) (boost prev) (driftDistance prev) (boostTime prev)
    (sensorReadings prev) (aiType prev).

(** Line 142. *)
Definition modes : list string :=
  ["follow"; "chase"; "overhead"; "cinematic"; "fixed"]%string.

(** [Array.prototype.indexOf]: the first index holding [s], or -1. *)
Fixpoint indexOfFrom (l : list string) (s : string) (i : Z) : Z :=
  match l with
  | [] => (-1)%Z
  | x :: rest => if String.eqb x s then i else indexOfFrom rest s (i + 1)%Z
  end.

Definition indexOf (l : list string) (s : string) : Z := indexOfFrom l s 0.

(** Lines 143-144; [None] is [undefined]. *)
Definition nextMode (cameraMode : string) : option string :=
  let currentIndex := indexOf modes cameraMode in
  index modes (Z.rem (currentIndex + 1) (Z.of_nat (length modes))).

(** [k] presses of the camera key. *)
Fixpoint pressCamera (k : nat) (cameraMode : string) : option string :=
  match k with
  | O => Some cameraMode
  | S k' =>
      match nextMode cameraMode with
      | Some m => pressCamera k' m
      | None => None
      end
  end.

End GameCanvas.

(** ** More concrete objects *)

Module Cases.

(** A driver on the demo course with a two-point racing line, heading
    [angle] and cursor [cursor]. *)
Definition driverAt (angle : number) (cursor : option Z)
  : AICar PlainCar.state :=
  mkAICar
    (Car.set_targetCheckpoint cursor
       (Car_new (Fin 0) (Fin 0) (Fin 20) (Fin 40) "red" angle))
    Demo.course (Fin 0.85) (Fin 0.115) (Fin 0) defaultSensors
    [Point.mk (Fin 30) (Fin 40); Point.mk (Fin 3) (Fin 4)]
    (Fin 0.68) (Fin 0.255) (Fin 288).

Definition worldAt (angle : number) : World PlainCar.state :=
  mkWorld (driverAt angle (Some 0%Z)) [] 0.

(** The state of the driver of [worldAt] between passes: ready, with a
    finite reaction time and heading, at the origin. *)
Definition parked (w : World PlainCar.state) : Prop :=
  Ready w
  /\ Num.is_finite (reactionTime (this w))
  /\ Num.is_finite (Car.angle (car (this w)))
  /\ Car.x (car (this w)) = Fin 0 /\ Car.y (car (this w)) = Fin 0.

(** A track without checkpoints. *)
Definition emptyTrack : Track.t := Track.mk [] (fun _ _ => false).

(** [Math.atan2 (y, x)] over exact extended reals, case by case as
    ECMAScript lists them: NaN when an argument is NaN, the angle of the
    point [(x, y)] in [-pi, pi] for finite arguments, and the limits for
    infinite ones.  A zero is taken as [+0]. *)
Definition atan2 (y x : number) : number :=
  match y, x with
  | NaN, _ | _, NaN => NaN
  | Fin y, Fin x =>
      if Rlt_dec 0 x then Fin (atan (y / x))
      else if Rlt_dec x 0 then
        (if Rlt_dec y 0 then Fin (atan (y / x) - PI)
         else Fin (atan (y / x) + PI))
      else if Rlt_dec 0 y then Fin (PI / 2)
      else if Rlt_dec y 0 then Fin (- (PI / 2))
      else Fin 0
  | Fin _, PInf => Fin 0
  | Fin y, NInf => if Rlt_dec y 0 then Fin (- PI) else Fin PI
  | PInf, Fin _ => Fin (PI / 2)
  | NInf, Fin _ => Fin (- (PI / 2))
  | PInf, PInf => Fin (PI / 4)
  | PInf, NInf => Fin (3 * PI / 4)
  | NInf, PInf => Fin (- (PI / 4))
  | NInf, NInf => Fin (- (3 * PI / 4))
  end.

End Cases.

(** ** Arithmetic on binary64 numbers *)

(** The arithmetic of lines 50-58, 121 and 163 on IEEE 754 binary64
    numbers, the numbers JavaScript computes with: rounding, underflow
    and overflow included. *)
Module Doubles.
Import PrimFloat.
Local Open Scope float_scope.

Definition squaredLength (cx cy nx ny : float) : float :=
  let dx := nx - cx in
  let dy := ny - cy in
  dx * dx + dy * dy.

(** The divisor [length] of line 53. *)
Definition legLength (cx cy nx ny : float) : float :=
  sqrt (squaredLength cx cy nx ny).



(** [Math.PI], the binary64 number nearest to pi. *)
Definition Math_PI : float := 0x1.921fb54442d18p+1.

(** The body of the loop of line 121: [angleDiff -= Math.PI * 2]. *)
Definition lessTurn (angleDiff : float) : float :=
  angleDiff - Math_PI * 2.

(** [Math.min] (the sign of a zero aside). *)
Definition Math_min (a b : float) : float :=
  if is_nan a || is_nan b then nan else if a <? b then a else b.

(** Line 163: [Math.min(1.0, this.aggressiveness + 0.1)]. *)
Definition raised (aggressiveness : float) : float :=
  Math_min 1 (aggressiveness + 0x1.999999999999ap-4).

End Doubles.

(** * Properties *)

(** ** Numbers *)

Module NumFacts.
Local Open Scope R_scope.

Lemma ltb_fin (a b : R) : Num.ltb (Fin a) (Fin b) = true <-> a < b.
Proof.
  unfold Num.ltb. destruct (Rlt_dec a b); split; intros; try easy.
Qed.

Lemma ltb_fin_false (a b : R) : Num.ltb (Fin a) (Fin b) = false <-> b <= a.
Proof.
  unfold Num.ltb. destruct (Rlt_dec a b); split; intros; try easy; lra.
Qed.

Lemma sqrt_fin (r : R) :
  0 <= r -> Num.sqrt (Fin r) = Fin (sqrt r).
Proof.
  intros. unfold Num.sqrt. destruct (Rlt_dec r 0); auto. lra.
Qed.

Lemma div_fin (a b : R) :
  b <> 0 -> Num.div (Fin a) (Fin b) = Fin (a / b).
Proof.
  intros. unfold Num.div. destruct (Req_dec_T b 0); auto. contradiction.
Qed.
End NumFacts.

(** ** The heading error (lines 120-122) *)

Module HeadingError.
Local Open Scope R_scope.

Lemma whileAbove_fin (n : nat) :
  forall (r : R) (fuel : nat),
    r <= PI + INR n * (2 * PI) -> (n <= fuel)%nat ->
    exists k : nat,
      whileAbove fuel (Fin r) = inr (Fin (r - INR k * (2 * PI)))
      /\ r - INR k * (2 * PI) <= PI
      /\ (k = 0%nat \/ - PI < r - INR k * (2 * PI)).
Proof.
  induction n as [|n IH]; intros r fuel Hr Hfuel.
  - exists 0%nat. simpl INR in *.
    assert (E : whileAbove fuel (Fin r) = inr (Fin r)).
    { destruct fuel; simpl; destruct (Rlt_dec PI r); auto; lra. }
    rewrite E. repeat split; auto; try lra. do 2 f_equal. lra.
  - destruct (Rlt_dec PI r) as [Hgt|Hle].
    + destruct fuel as [|fuel]; [lia|].
      rewrite S_INR in Hr.
      destruct (IH (r - 2 * PI) fuel) as (k & E & Hk1 & Hk2); [lra | lia |].
      exists (S k). rewrite S_INR.
      replace (r - (INR k + 1) * (2 * PI)) with (r - 2 * PI - INR k * (2 * PI))
        by lra.
      split; [|split]; auto.
      * simpl. destruct (Rlt_dec PI r); [|lra].
        replace (r + - (PI * 2)) with (r - 2 * PI) by lra. exact E.
      * right. destruct Hk2 as [->|]; auto. simpl. lra.
    + exists 0%nat. simpl INR.
      assert (E : whileAbove fuel (Fin r) = inr (Fin r)).
      { destruct fuel; simpl; destruct (Rlt_dec PI r); auto; lra. }
      rewrite E. repeat split; auto; try lra. do 2 f_equal. lra.
Qed.

Lemma whileBelow_fin (n : nat) :
  forall (r : R) (fuel : nat),
    - PI - INR n * (2 * PI) <= r -> (n <= fuel)%nat ->
    exists k : nat,
      whileBelow fuel (Fin r) = inr (Fin (r + INR k * (2 * PI)))
      /\ - PI <= r + INR k * (2 * PI)
      /\ (k = 0%nat \/ r + INR k * (2 * PI) < PI).
Proof.
  induction n as [|n IH]; intros r fuel Hr Hfuel.
  - exists 0%nat. simpl INR in *.
    assert (E : whileBelow fuel (Fin r) = inr (Fin r)).
    { destruct fuel; simpl; destruct (Rlt_dec r (- PI)); auto; lra. }
    rewrite E. repeat split; auto; try lra. do 2 f_equal. lra.
  - destruct (Rlt_dec r (- PI)) as [Hlt|Hge].
    + destruct fuel as [|fuel]; [lia|].
      rewrite S_INR in Hr.
      destruct (IH (r + 2 * PI) fuel) as (k & E & Hk1 & Hk2); [lra | lia |].
      exists (S k). rewrite S_INR.
      replace (r + (INR k + 1) * (2 * PI)) with (r + 2 * PI + INR k * (2 * PI))
        by lra.
      split; [|split]; auto.
      * simpl. destruct (Rlt_dec r (- PI)); [|lra].
        replace (r + PI * 2) with (r + 2 * PI) by lra. exact E.
      * right. destruct Hk2 as [->|]; auto. simpl. lra.
    + exists 0%nat. simpl INR.
      assert (E : whileBelow fuel (Fin r) = inr (Fin r)).
      { destruct fuel; simpl; destruct (Rlt_dec r (- PI)); auto; lra. }
      rewrite E. repeat split; auto; try lra. do 2 f_equal. lra.
Qed.

(** Enough iterations for a finite angle. *)
Lemma turns_bound (r : R) :
  exists n : nat,
    r <= PI + INR n * (2 * PI) /\ - PI - INR n * (2 * PI) <= r.
Proof.
  destruct (INR_unbounded (Rabs r)) as [n Hn].
  exists n. pose proof PI_RGT_0 as Hpi.
  assert (0 <= INR n) by apply pos_INR.
  assert (INR n <= INR n * (2 * PI)).
  { pose proof PI2_3_2. nra. }
  destruct (Rabs_def2 r (INR n)); lra.
Qed.

(** A loop that has returned returns the same with more fuel. *)
Lemma whileAbove_mono (fuel : nat) :
  forall (a b : number) (fuel' : nat),
    whileAbove fuel a = inr b -> (fuel <= fuel')%nat ->
    whileAbove fuel' a = inr b.
Proof.
  induction fuel as [|fuel IH]; intros a b fuel' E Hle.
  - cbn [whileAbove] in E. destruct (Num.gtb a Num.PI) eqn:G; [discriminate|].
    destruct fuel'; cbn [whileAbove]; rewrite G; exact E.
  - destruct fuel' as [|fuel']; [lia|]. cbn [whileAbove] in *.
    destruct (Num.gtb a Num.PI); auto. apply IH; auto. lia.
Qed.

Lemma whileBelow_mono (fuel : nat) :
  forall (a b : number) (fuel' : nat),
    whileBelow fuel a = inr b -> (fuel <= fuel')%nat ->
    whileBelow fuel' a = inr b.
Proof.
  induction fuel as [|fuel IH]; intros a b fuel' E Hle.
  - cbn [whileBelow] in E.
    destruct (Num.ltb a (Num.neg Num.PI)) eqn:G; [discriminate|].
    destruct fuel'; cbn [whileBelow]; rewrite G; exact E.
  - destruct fuel' as [|fuel']; [lia|]. cbn [whileBelow] in *.
    destruct (Num.ltb a (Num.neg Num.PI)); auto. apply IH; auto. lia.
Qed.

(** The loops on a finite difference: they end, the result is the
    difference moved by whole turns, and it lies in the closed interval. *)
Lemma angleDiffOf_fin (b h : R) :
  exists (fuel : nat) (a : R) (k : Z),
    (forall fuel', (fuel <= fuel')%nat ->
                   angleDiffOf fuel' (Fin b) (Fin h) = inr (Fin a))
    /\ - PI <= a <= PI
    /\ a = b - h + IZR k * (2 * PI).
Proof.
  destruct (turns_bound (b - h)) as (n & Hup & Hlo).
  destruct (whileAbove_fin n (b - h) n Hup (le_n n)) as (k1 & E1 & Hk1 & Hk1').
  set (a1 := b - h - INR k1 * (2 * PI)) in *.
  assert (Hlo1 : - PI - INR n * (2 * PI) <= a1).
  { pose proof (pos_INR n). pose proof PI_RGT_0.
    assert (0 <= INR n * (2 * PI)) by nra.
    destruct Hk1' as [->|]; unfold a1 in *; simpl INR; lra. }
  destruct (whileBelow_fin n a1 n Hlo1 (le_n n)) as (k2 & E2 & Hk2 & Hk2').
  exists n, (a1 + INR k2 * (2 * PI)), (Z.of_nat k2 - Z.of_nat k1)%Z.
  split; [|split].
  - intros fuel' Hf. unfold angleDiffOf.
    replace (Num.sub (Fin b) (Fin h)) with (Fin (b - h)) by reflexivity.
    rewrite (whileAbove_mono _ _ _ _ E1 Hf). simpl exc_bind.
    apply (whileBelow_mono _ _ _ _ E2 Hf).
  - split; auto. destruct Hk2' as [->|]; simpl INR; lra.
  - rewrite minus_IZR, <- !INR_IZR_INZ. unfold a1. lra.
Qed.

(** NaN fails both guards: the loops are skipped. *)
Lemma angleDiffOf_nan (fuel : nat) (t h : number) :
  Num.sub t h = NaN -> angleDiffOf fuel t h = inr NaN.
Proof.
  intros E. unfold angleDiffOf. rewrite E.
  destruct fuel; reflexivity.
Qed.

(** The loops end on every difference of two numbers that are not
    infinite. *)
Lemma angleDiffOf_returns (t h : number) :
  notInfinite t -> notInfinite h ->
  exists (fuel : nat) (a : number),
    forall fuel', (fuel <= fuel')%nat -> angleDiffOf fuel' t h = inr a.
Proof.
  intros [Ht1 Ht2] [Hh1 Hh2].
  destruct t as [b| | |], h as [r| | |]; try contradiction.
  - destruct (angleDiffOf_fin b r) as (fuel & a & _ & E & _). eauto.
  - exists 0%nat, NaN. intros. apply angleDiffOf_nan. reflexivity.
  - exists 0%nat, NaN. intros. apply angleDiffOf_nan. reflexivity.
  - exists 0%nat, NaN. intros. apply angleDiffOf_nan. reflexivity.
Qed.

(** On an infinite difference the first guard never fails. *)
Lemma whileAbove_infinite (fuel : nat) :
  whileAbove fuel PInf = inl OutOfFuel.
Proof. induction fuel; simpl; auto. Qed.

Lemma whileBelow_infinite (fuel : nat) :
  whileBelow fuel NInf = inl OutOfFuel.
Proof. induction fuel; simpl; auto. Qed.

End HeadingError.

(** ** The racing line (lines 43-73) *)

Module RacingLine.

Lemma legPoints_length (c n : Point.t) :
  length (legPoints c n) = S segments.
Proof. unfold legPoints. rewrite length_map, length_seq. reflexivity. Qed.

Lemma nth_error_in_range {A : Type} (l : list A) (i : nat) :
  (i < length l)%nat -> exists a, nth_error l i = Some a.
Proof.
  intros Hi. destruct (nth_error l i) eqn:E; eauto.
  apply nth_error_None in E. lia.
Qed.

(** Inside the array every iteration of the outer loop finds both of its
    checkpoints. *)
Lemma legAt_in_range (cps : list Point.t) (i : nat) :
  (i < length cps)%nat ->
  exists c n,
    nth_error cps i = Some c
    /\ nth_error cps ((i + 1) mod length cps) = Some n
    /\ legAt cps i = inr (legPoints c n).
Proof.
  intros Hi.
  destruct (nth_error_in_range cps i Hi) as [c Hc].
  destruct (nth_error_in_range cps ((i + 1) mod length cps)) as [n Hn].
  { apply Nat.mod_upper_bound. lia. }
  exists c, n. unfold legAt. rewrite Hc, Hn. auto.
Qed.

(** The outer loop after [k] iterations: one leg per index, in order. *)
Lemma outer_loop (cps : list Point.t) (k : nat) :
  (k <= length cps)%nat ->
  exists legs,
    fold_left
      (fun acc i =>
         exc_bind acc (fun points =>
         exc_bind (legAt cps i) (fun leg => inr (points ++ leg))))
      (seq 0 k) (inr []) = inr (concat legs)
    /\ Forall2 (fun i leg => legAt cps i = inr leg) (seq 0 k) legs.
Proof.
  induction k as [|k IH]; intros Hk.
  - exists []. simpl. auto.
  - destruct IH as (legs & E & F); [lia|].
    destruct (legAt_in_range cps k) as (c & n & _ & _ & El); [lia|].
    exists (legs ++ [legPoints c n]).
    rewrite seq_S, fold_left_app, E. cbn [fold_left exc_bind Nat.add].
    rewrite El. cbn [exc_bind].
    rewrite concat_app. cbn [concat]. rewrite app_nil_r. split; auto.
    apply Forall2_app; auto.
Qed.

Lemma calculateRacingLine_legs (tr : Track.t) :
  exists legs,
    calculateRacingLine tr = inr (concat legs)
    /\ Forall2 (fun i leg => legAt (Track.checkpoints tr) i = inr leg)
         (seq 0 (length (Track.checkpoints tr))) legs.
Proof. apply outer_loop. lia. Qed.

Lemma legs_length (cps : list Point.t) (idx : list nat)
    (legs : list (list Point.t)) :
  Forall2 (fun i leg => legAt cps i = inr leg) idx legs ->
  length (concat legs) = (length idx * S segments)%nat.
Proof.
  induction 1 as [|i leg idx legs E _ IH]; [reflexivity|].
  assert (Hleg : length leg = S segments).
  { unfold legAt in E.
    destruct (nth_error cps i); cbn [defined exc_bind] in E; [|discriminate].
    destruct (nth_error cps _); cbn [defined exc_bind] in E; [|discriminate].
    injection E as <-. apply legPoints_length. }
  cbn [concat length]. rewrite length_app, IH, Hleg. unfold segments. lia.
Qed.

(** The racing line is computed (no read of an undefined checkpoint) and
    holds [segments + 1] waypoints for each checkpoint. *)
Lemma calculateRacingLine_length (tr : Track.t) :
  exists line,
    calculateRacingLine tr = inr line
    /\ length line = (length (Track.checkpoints tr) * (segments + 1))%nat
    /\ length line = (6 * length (Track.checkpoints tr))%nat.
Proof.
  destruct (calculateRacingLine_legs tr) as (legs & E & F).
  exists (concat legs). split; auto.
  rewrite (legs_length _ _ _ F), length_seq. unfold segments. lia.
Qed.

(** *** Finite waypoints *)

Local Open Scope R_scope.


(** Between two coinciding finite checkpoints the division is [0 / 0]:
    every waypoint of the leg is NaN. *)
Lemma legPoints_coincident (cx cy : R) :
  Forall (fun p => Point.x p = NaN /\ Point.y p = NaN)
    (legPoints (Point.mk (Fin cx) (Fin cy)) (Point.mk (Fin cx) (Fin cy))).
Proof.
  assert (Hlen : legLength (Point.mk (Fin cx) (Fin cy))
                   (Point.mk (Fin cx) (Fin cy)) = Fin 0).
  { unfold legLength. cbn [Point.x Point.y Num.sub Num.neg Num.add Num.mul].
    rewrite NumFacts.sqrt_fin by nra. f_equal.
    replace ((cx + - cx) * (cx + - cx) + (cy + - cy) * (cy + - cy)) with 0
      by lra.
    apply sqrt_0. }
  assert (Hdiv : forall c, Num.div (Fin (c + - c)) (Fin 0) = NaN).
  { intros c. unfold Num.div.
    destruct (Req_dec_T 0 0) as [_|Hne]; [|contradiction].
    destruct (Rlt_dec 0 (c + - c)); [lra|].
    destruct (Rlt_dec (c + - c) 0); [lra|reflexivity]. }
  unfold legPoints. rewrite Hlen.
  cbn [Point.x Point.y Num.sub Num.neg Num.add]. rewrite !Hdiv.
  apply Forall_forall. intros p Hp. apply in_map_iff in Hp.
  destruct Hp as (j & <- & _). cbn [Point.x Point.y Num.neg].
  unfold Num.of_nat. rewrite NumFacts.div_fin by (unfold segments; simpl; lra).
  split; reflexivity.
Qed.




End RacingLine.

(** ** The divisor on binary64 numbers *)

Module DoublesFacts.
Import PrimFloat.
Local Open Scope float_scope.


(** At [1e17] a turn is less than half the gap between neighbouring
    binary64 numbers: the body of the loop of line 121 leaves the value
    as it is while the guard stays true, so on such a difference the loop
    makes no progress. *)
Lemma large_difference_absorbs_turn :
  (Doubles.Math_PI <? 1e17) = true
  /\ Doubles.lessTurn 1e17 = 1e17.
Proof. split; vm_compute; reflexivity. Qed.

(** Ten increments of 0.1 from 0 stop one step short of 1; the eleventh
    is capped at 1. *)
Lemma ten_increments_fall_short :
  Nat.iter 10 Doubles.raised 0 = 0x1.fffffffffffffp-1
  /\ (Nat.iter 10 Doubles.raised 0 <? 1) = true
  /\ Nat.iter 11 Doubles.raised 0 = 1.
Proof. repeat split; vm_compute; reflexivity. Qed.

End DoublesFacts.

(** ** Construction (lines 15-41) *)

Section Construction.
Context {H : Type} {base : CarBase H}.

Local Open Scope R_scope.

Lemma constructor_returns x y width height color angle tr difficulty :
  exists line,
    calculateRacingLine tr = inr line
    /\ @constructor H base x y width height color angle tr difficulty
       = inr (mkAICar
                (Car.set_maxVelocity
                   (Num.add (Fin 280)
                      (Num.mul (match difficulty with
                                | Some d => d
                                | None => Fin 0.85
                                end) (Fin 40)))
                   (Car.set_targetCheckpoint (Some 0%Z)
                      (Car_new x y width height color angle)))
                tr
                (match difficulty with Some d => d | None => Fin 0.85 end)
                (Num.sub (Fin 0.2)
                   (Num.mul (match difficulty with
                             | Some d => d
                             | None => Fin 0.85
                             end) (Fin 0.1)))
                (Fin 0)
                defaultSensors
                line
                (Num.mul (match difficulty with
                          | Some d => d
                          | None => Fin 0.85
                          end) (Fin 0.8))
                (Num.mul (match difficulty with
                          | Some d => d
                          | None => Fin 0.85
                          end) (Fin 0.3))
                (Num.add (Fin 220)
                   (Num.mul (match difficulty with
                             | Some d => d
                             | None => Fin 0.85
                             end) (Fin 80)))).
Proof.
  destruct (RacingLine.calculateRacingLine_length tr) as (line & E & _).
  exists line. split; [exact E|]. unfold constructor. rewrite E. reflexivity.
Qed.

(** The constructor stores the difficulty it is given. *)
Lemma constructor_stores x y width height color angle tr (d : number) :
  exists a,
    @constructor H base x y width height color angle tr (Some d) = inr a
    /\ difficulty a = d
    /\ aggressiveness a = Num.mul d (Fin 0.8)
    /\ driftProbability a = Num.mul d (Fin 0.3)
    /\ Car.targetCheckpoint (car a) = Some 0%Z.
Proof.
  destruct (constructor_returns x y width height color angle tr (Some d))
    as (line & _ & E).
  eexists. split; [exact E|]. cbn. auto.
Qed.

(** With the argument omitted the difficulty is 0.85. *)
Lemma constructor_default_difficulty x y width height color angle tr :
  exists a,
    @constructor H base x y width height color angle tr None = inr a
    /\ difficulty a = Fin 0.85.
Proof.
  destruct (constructor_returns x y width height color angle tr None)
    as (line & _ & E).
  eexists. split; [exact E|]. reflexivity.
Qed.

(** C4, as the code has it.  The constructor does not clamp: for every
    difficulty [d] it returns with [d] stored as given, aggressiveness
    [d * 0.8] and drift probability [d * 0.3]; so when [d] is a number
    in [0, 1] the three stored values lie in [0, 1]. *)
Theorem constructor_stores_difficulty
    x y width height color angle tr (d : number) :
  exists a,
    @constructor H base x y width height color angle tr (Some d) = inr a
    /\ difficulty a = d
    /\ aggressiveness a = Num.mul d (Fin 0.8)
    /\ driftProbability a = Num.mul d (Fin 0.3)
    /\ forall r, d = Fin r -> 0 <= r <= 1 ->
         aggressiveness a = Fin (r * 0.8) /\ 0 <= r * 0.8 <= 1
         /\ driftProbability a = Fin (r * 0.3) /\ 0 <= r * 0.3 <= 1.
Proof.
  destruct (constructor_stores x y width height color angle tr d)
    as (a & E & Ed & Ea & Ep & _).
  exists a. repeat (split; [assumption|]).
  intros r -> Hr. rewrite Ea, Ep. cbn [Num.mul].
  repeat split; lra.
Qed.

(** C6. The constructor returns for every track, and the racing line it
    stores is the one [calculateRacingLine] computes, of length
    [c * (segments + 1) = 6 * c] for [c] checkpoints. *)
Theorem constructor_racingLine_length
    x y width height color angle tr difficulty :
  exists a,
    @constructor H base x y width height color angle tr difficulty = inr a
    /\ calculateRacingLine tr = inr (racingLine a)
    /\ length (racingLine a)
       = (length (Track.checkpoints tr) * (segments + 1))%nat
    /\ length (racingLine a) = (6 * length (Track.checkpoints tr))%nat.
Proof.
  destruct (constructor_returns x y width height color angle tr difficulty)
    as (line & El & E).
  destruct (RacingLine.calculateRacingLine_length tr)
    as (line' & El' & L1 & L2).
  rewrite El in El'. injection El' as <-.
  eexists. split; [exact E|]. cbn [racingLine]. auto.
Qed.

End Construction.

(** ** Reasoning about method bodies *)

Section Bodies.
Context {H : Type} {base : CarBase H}.

Lemma bind_inr {A B : Type} (m : M H A) (k : A -> M H B) w b w'' :
  bind m k w = inr (b, w'') ->
  exists a w', m w = inr (a, w') /\ k a w' = inr (b, w'').
Proof.
  unfold bind. destruct (m w) as [e|[a w']]; [discriminate|]. eauto.
Qed.

Lemma bind_eq {A B : Type} (m : M H A) (k : A -> M H B) w a w' :
  m w = inr (a, w') -> bind m k w = k a w'.
Proof. unfold bind. intros ->. reflexivity. Qed.

Lemma preserves_ret {A : Type} (R : World H -> World H -> Prop) `{!Steps R}
    (a : A) :
  preserves R (ret a).
Proof. intros w a' w' E. injection E as _ <-. apply steps_refl. Qed.

Lemma preserves_bind {A B : Type} (R : World H -> World H -> Prop)
    `{!Steps R} (m : M H A) (k : A -> M H B) :
  preserves R m -> (forall a, preserves R (k a)) -> preserves R (bind m k).
Proof.
  intros Hm Hk w b w'' E. apply bind_inr in E.
  destruct E as (a & w' & E1 & E2).
  eapply steps_trans; [eapply Hm | eapply Hk]; eauto.
Qed.

Lemma preserves_read {A : Type} (R : World H -> World H -> Prop) `{!Steps R}
    (f : AICar H -> A) :
  preserves R (read f).
Proof. intros w a w' E. injection E as _ <-. apply steps_refl. Qed.

Lemma preserves_lift {A : Type} (R : World H -> World H -> Prop) `{!Steps R}
    (m : exc A) :
  preserves R (lift m).
Proof.
  intros w a w' E. unfold lift in E. destruct m; [discriminate|].
  injection E as _ <-. apply steps_refl.
Qed.

Lemma preserves_andThen (R : World H -> World H -> Prop) `{!Steps R}
    (a b : M H bool) :
  preserves R a -> preserves R b -> preserves R (andThen a b).
Proof.
  intros Ha Hb. unfold andThen. apply preserves_bind; auto.
  intros [|]; auto. apply preserves_ret; auto.
Qed.

#[global] Instance onlyCar_steps : Steps (@onlyCar H).
Proof.
  split; unfold onlyCar.
  - intros w. destruct (this w). reflexivity.
  - intros w1 w2 w3 E1 E2. rewrite E2, E1. reflexivity.
Qed.

#[global] Instance keeps_steps {X : Type} (f : World H -> X) : Steps (keeps f).
Proof.
  split; unfold keeps; intros; congruence.
Qed.

End Bodies.

(** Splits a body along its binds and branches; the leaves are the
    primitive operations. *)
Ltac body_step :=
  match goal with
  | |- preserves _ (bind _ _) => apply preserves_bind; [try exact _| |intro]
  | |- preserves _ (ret _) => apply preserves_ret; try exact _
  | |- preserves _ (read _) => apply preserves_read; try exact _
  | |- preserves _ (lift _) => apply preserves_lift; try exact _
  | |- preserves _ (andThen _ _) => apply preserves_andThen; [try exact _| |]
  | |- preserves _ (if ?b then _ else _) => destruct b
  | |- preserves _ (match ?o with Some _ => _ | None => _ end) => destruct o
  end.

Ltac primitive :=
  let w := fresh "w" in
  let E := fresh "E" in
  intros w ? ? E;
  unfold turnLeft, turnRight, accelerate, releaseAccelerator, brake,
    activateBoost, deactivateBoost, super_update, invoke, getSpeed, random,
    set_drifting, write in E;
  injection E as _ <-;
  unfold onlyCar, keeps, cursor; cbn;
  try (destruct w as [[] ? ?]; cbn); auto.

Ltac body := repeat body_step; try primitive.

(** ** The decision pass, block by block *)

Section Decisions.
Context {H : Type} {base : CarBase H}.
Variable Math_atan2 : number -> number -> number.
Variable Math_random : nat -> number.

(** *** What a block leaves unchanged *)

Lemma steer_onlyCar ad col : preserves onlyCar (steer ad col).
Proof. unfold steer. body. Qed.

Lemma decideDrift_onlyCar ad : preserves onlyCar (decideDrift Math_random ad).
Proof. unfold decideDrift. body. Qed.

Lemma throttle_onlyCar : preserves onlyCar (@throttle H base).
Proof. unfold throttle. body. Qed.

Lemma decideBoost_onlyCar p : preserves onlyCar (decideBoost Math_random p).
Proof. unfold decideBoost. body. Qed.

Lemma throttlePolicy_onlyCar ad col p :
  preserves onlyCar (throttlePolicy Math_random ad col p).
Proof.
  unfold throttlePolicy.
  destruct (negb col && _)%bool.
  - apply preserves_bind; [exact _|apply decideDrift_onlyCar|intro].
    apply preserves_bind; [exact _|apply throttle_onlyCar|intro].
    apply decideBoost_onlyCar.
  - body.
Qed.

Section Cursor.
Hypothesis Hbase : BaseKeepsCursor.

Lemma steer_cursor ad col : preserves (keeps cursor) (steer ad col).
Proof. destruct Hbase. unfold steer. body. Qed.

Lemma decideDrift_cursor ad :
  preserves (keeps cursor) (decideDrift Math_random ad).
Proof. destruct Hbase. unfold decideDrift. body. Qed.

Lemma throttle_cursor : preserves (keeps cursor) (@throttle H base).
Proof. destruct Hbase. unfold throttle. body. Qed.

Lemma decideBoost_cursor p : preserves (keeps cursor) (decideBoost Math_random p).
Proof. destruct Hbase. unfold decideBoost. body. Qed.

Lemma throttlePolicy_cursor ad col p :
  preserves (keeps cursor) (throttlePolicy Math_random ad col p).
Proof.
  unfold throttlePolicy.
  destruct (negb col && _)%bool.
  - apply preserves_bind; [exact _|apply decideDrift_cursor|intro].
    apply preserves_bind; [exact _|apply throttle_cursor|intro].
    apply decideBoost_cursor.
  - destruct Hbase. body.
Qed.

End Cursor.

(** *** The calls a block makes *)

Lemma steer_calls ad col (w : World H) :
  exists w' turn,
    steer ad col w = inr (tt, w')
    /\ calls w' = calls w ++ turn /\ isTurn turn /\ draws w' = draws w.
Proof.
  unfold steer, isTurn.
  destruct (Num.gtb ad (Fin 0.1)); [|destruct (Num.ltb ad (Fin (-0.1)))];
    eexists; eexists; (split; [reflexivity|]); cbn.
  - split; [reflexivity|]. split; eauto.
  - split; [reflexivity|]. split; eauto.
  - split; [symmetry; apply app_nil_r|]. split; eauto.
Qed.

Lemma decideDrift_calls ad (w : World H) :
  exists w' probe,
    decideDrift Math_random ad w = inr (tt, w')
    /\ calls w' = calls w ++ probe /\ isProbe probe.
Proof.
  unfold decideDrift, isProbe, andThen, bind, ret, read, getSpeed, random,
    set_drifting, write.
  cbn beta iota zeta.
  repeat match goal with
    | |- context [if ?x then _ else _] => destruct x
    end;
    eexists; eexists; (split; [reflexivity|]); cbn;
    (split; [try reflexivity; symmetry; apply app_nil_r|]); eauto.
Qed.

Lemma throttle_calls (w : World H) :
  exists w',
    @throttle H base w = inr (tt, w')
    /\ calls w' =
       calls w ++
         [CGetSpeed (Car_getSpeed (car (this w)));
          if Num.ltb (Car_getSpeed (car (this w))) (preferredSpeed (this w))
          then CAccelerate (reactionTime (this w))
          else CReleaseAccelerator (reactionTime (this w))].
Proof.
  unfold throttle, bind, getSpeed, read, accelerate, releaseAccelerator,
    invoke.
  cbn beta iota zeta. cbn [this car calls].
  destruct (Num.ltb (Car_getSpeed (car (this w))) (preferredSpeed (this w)));
    eexists; (split; [reflexivity|]); cbn; rewrite <- app_assoc; reflexivity.
Qed.

Lemma decideBoost_calls p (w w' : World H) :
  decideBoost Math_random p w = inr (tt, w') ->
  exists boost, calls w' = calls w ++ [boost] /\ isBoost boost.
Proof.
  unfold decideBoost, isBoost. intros E.
  apply bind_inr in E. destruct E as (ahead & w1 & E1 & E).
  apply bind_inr in E. destruct E as (should & w2 & E2 & E).
  apply bind_inr in E. destruct E as (roll & w3 & E3 & E).
  assert (K1 : keeps (@calls H) w w1).
  { revert E1. generalize w ahead w1. change (preserves (keeps (@calls H))
      (bind (read (fun a => a)) (fun a => lift (isAheadOf a p)))). body. }
  assert (K2 : keeps (@calls H) w1 w2).
  { revert E2. generalize w1 should w2.
    match goal with
    | |- forall w a w', ?m w = inr (a, w') -> _ =>
        change (preserves (keeps (@calls H)) m)
    end. body. }
  assert (K3 : keeps (@calls H) w2 w3).
  { revert E3. generalize w2 roll w3.
    match goal with
    | |- forall w a w', ?m w = inr (a, w') -> _ =>
        change (preserves (keeps (@calls H)) m)
    end. body. }
  unfold keeps in *.
  destruct roll; injection E as <-; cbn; rewrite K3, K2, K1; eauto.
Qed.

Lemma brake_branch (w : World H) :
  exists w',
    (bind (read (@reactionTime H)) (fun rt =>
     bind (brake rt) (fun _ =>
     bind deactivateBoost (fun _ => set_drifting false)))) w = inr (tt, w')
    /\ calls w' = calls w ++ [CBrake (reactionTime (this w)); CDeactivateBoost]
    /\ car (this w') =
       Car.set_drifting false
         (Car_deactivateBoost (Car_brake (reactionTime (this w)) (car (this w))))
    /\ draws w' = draws w.
Proof.
  eexists. split; [reflexivity|]. cbn. rewrite <- app_assoc.
  destruct w as [[] ? ?]. cbn. auto.
Qed.

(** *** When a block returns *)

Lemma onlyCar_track (w w' : World H) :
  onlyCar w w' -> track (this w') = track (this w).
Proof. unfold onlyCar. intros ->. reflexivity. Qed.

Lemma cursorValid_step (w w' : World H) :
  onlyCar w w' -> keeps cursor w w' -> cursorValid w -> cursorValid w'.
Proof.
  unfold cursorValid, keeps. intros Ho ->. rewrite (onlyCar_track _ _ Ho). auto.
Qed.

Lemma distanceToCheckpoint_returns (w : World H) :
  cursorValid w -> exists d, distanceToCheckpoint (this w) = inr d.
Proof.
  unfold cursorValid, cursor, distanceToCheckpoint.
  destruct (Car.targetCheckpoint (car (this w))); [|eauto].
  intros [c ->]. cbn. eauto.
Qed.

Lemma isAheadOf_returns (w : World H) p :
  cursorValid w -> exists b, isAheadOf (this w) p = inr b.
Proof.
  intros Hv. destruct (distanceToCheckpoint_returns w Hv) as [d Ed].
  unfold isAheadOf. unfold cursorValid, cursor in Hv.
  destruct (Car.targetCheckpoint (car (this w))) as [mine|]; [|eauto].
  destruct (Car.targetCheckpoint p) as [theirs|]; [|eauto].
  destruct (mine >? theirs)%Z; [eauto|].
  destruct (mine =? theirs)%Z; [|eauto].
  rewrite Ed. destruct Hv as [c ->]. cbn. eauto.
Qed.

Lemma decideBoost_returns p (w : World H) :
  cursorValid w -> exists w', decideBoost Math_random p w = inr (tt, w').
Proof.
  intros Hv.
  destruct (isAheadOf_returns w p Hv) as [ahead Ea].
  destruct (distanceToCheckpoint_returns w Hv) as [d Ed].
  unfold decideBoost, andThen, bind, read, lift, ret, random,
    activateBoost, deactivateBoost, invoke.
  cbn beta iota zeta. cbn [this]. rewrite Ea.
  destruct ahead; cbn [negb]; cbn beta iota; cbn [this draws];
    try rewrite Ed;
    repeat match goal with
      | |- context [if ?x then _ else _] => destruct x; cbn beta iota
      end; eauto.
Qed.

Section Returns.
Hypothesis Hbase : BaseKeepsCursor.

Lemma throttlePolicy_returns ad col p (w : World H) :
  cursorValid w ->
  exists w', throttlePolicy Math_random ad col p w = inr (tt, w').
Proof.
  intros Hv. unfold throttlePolicy.
  destruct (negb col && _)%bool.
  - destruct (decideDrift_calls ad w) as (w1 & ? & E1 & _).
    destruct (throttle_calls w1) as (w2 & E2 & _).
    assert (Hv2 : cursorValid w2).
    { eapply cursorValid_step;
        [eapply throttle_onlyCar; eauto
        |eapply (throttle_cursor Hbase); eauto|].
      eapply cursorValid_step;
        [eapply decideDrift_onlyCar; eauto
        |eapply (decideDrift_cursor Hbase); eauto|]. exact Hv. }
    destruct (decideBoost_returns p w2 Hv2) as (w3 & E3).
    exists w3.
    rewrite (bind_eq _ _ _ _ _ E1), (bind_eq _ _ _ _ _ E2). exact E3.
  - destruct (brake_branch w) as (w' & E & _). eauto.
Qed.

End Returns.

(** *** The pass as a sequence of its blocks *)

Lemma makeDecisions_blocks fuel p (w w' : World H) :
  makeDecisions Math_atan2 Math_random fuel p w = inr (tt, w') ->
  exists ad w1 w2,
    headingError Math_atan2 fuel (this w) = inr ad
    /\ steer ad (hasCollisionAhead (checkSensors (this w))) w = inr (tt, w1)
    /\ throttlePolicy Math_random ad
         (hasCollisionAhead (checkSensors (this w))) p w1 = inr (tt, w2)
    /\ adaptAggressiveness p w2 = inr (tt, w').
Proof.
  unfold makeDecisions. intros E.
  apply bind_inr in E. destruct E as (a & w0 & E0 & E).
  injection E0 as <- <-.
  apply bind_inr in E. destruct E as (ad & w0 & E0 & E).
  unfold lift in E0. destruct (headingError _ _ _) as [|ad'] eqn:Eh;
    [discriminate|]. injection E0 as -> <-.
  apply bind_inr in E. destruct E as ([] & w1 & E1 & E).
  apply bind_inr in E. destruct E as ([] & w2 & E2 & E).
  exists ad, w1, w2. auto.
Qed.

Lemma makeDecisions_compose fuel p (w w1 w2 w' : World H) ad :
  headingError Math_atan2 fuel (this w) = inr ad ->
  steer ad (hasCollisionAhead (checkSensors (this w))) w = inr (tt, w1) ->
  throttlePolicy Math_random ad
    (hasCollisionAhead (checkSensors (this w))) p w1 = inr (tt, w2) ->
  adaptAggressiveness p w2 = inr (tt, w') ->
  makeDecisions Math_atan2 Math_random fuel p w = inr (tt, w').
Proof.
  intros Eh E1 E2 E3. unfold makeDecisions.
  unfold bind at 1. cbn [read this].
  unfold bind at 1. unfold lift. rewrite Eh.
  rewrite (bind_eq _ _ _ _ _ E1), (bind_eq _ _ _ _ _ E2). exact E3.
Qed.

Lemma adaptAggressiveness_spec p (w : World H) :
  adaptAggressiveness p w =
  inr (tt, mkWorld
             (set_aggressiveness
                (if Num.ltb (distanceToPlayer (this w) p) (Fin 100)
                 then Num.min (Fin 1.0)
                        (Num.add (aggressiveness (this w)) (Fin 0.1))
                 else Num.mul (difficulty (this w)) (Fin 0.8))
                (this w))
             (calls w) (draws w)).
Proof.
  unfold adaptAggressiveness, bind, read, write. cbn beta iota. cbn [this].
  destruct (Num.ltb (distanceToPlayer (this w) p) (Fin 100)); reflexivity.
Qed.

Lemma getTargetRacingPoint_defined (a : AICar H) :
  racingLine a <> [] -> exists p, getTargetRacingPoint a = Some p.
Proof.
  intros Hne. unfold getTargetRacingPoint.
  apply RacingLine.nth_error_in_range. apply Nat.mod_upper_bound.
  destruct (racingLine a); [contradiction|discriminate].
Qed.

Lemma headingError_returns (w : World H) :
  Atan2Bounded Math_atan2 -> Ready w ->
  exists fuel ad,
    forall fuel', (fuel <= fuel')%nat ->
                  headingError Math_atan2 fuel' (this w) = inr ad.
Proof.
  intros Hat [Hline _ Hangle]. unfold headingError.
  destruct (getTargetRacingPoint_defined _ Hline) as [pt ->].
  cbn [defined exc_bind].
  apply HeadingError.angleDiffOf_returns; auto.
Qed.

Lemma makeDecisions_returns p (w : World H) :
  BaseKeepsCursor -> Atan2Bounded Math_atan2 -> Ready w ->
  exists fuel,
    forall fuel', (fuel <= fuel')%nat ->
    exists w', makeDecisions Math_atan2 Math_random fuel' p w = inr (tt, w').
Proof.
  intros Hbase Hat Hr.
  destruct (headingError_returns w Hat Hr) as (fuel & ad & Eh).
  exists fuel. intros fuel' Hf.
  destruct (steer_calls ad (hasCollisionAhead (checkSensors (this w))) w)
    as (w1 & ? & E1 & _).
  assert (Hv1 : cursorValid w1).
  { eapply cursorValid_step;
      [eapply steer_onlyCar; eauto|eapply (steer_cursor Hbase); eauto|].
    apply Hr. }
  destruct (throttlePolicy_returns Hbase ad
              (hasCollisionAhead (checkSensors (this w))) p w1 Hv1)
    as (w2 & E2).
  eexists. eapply makeDecisions_compose; eauto.
  apply adaptAggressiveness_spec.
Qed.

End Decisions.

(** ** The throttle policy (lines 134-160) *)

Section ThrottlePolicy.
Context {H : Type} {base : CarBase H}.
Variable Math_atan2 : number -> number -> number.
Variable Math_random : nat -> number.

Local Open Scope R_scope.

Lemma onlyCar_fields (w w' : World H) :
  onlyCar w w' ->
  reactionTime (this w') = reactionTime (this w)
  /\ preferredSpeed (this w') = preferredSpeed (this w)
  /\ aggressiveness (this w') = aggressiveness (this w)
  /\ difficulty (this w') = difficulty (this w)
  /\ lastDecision (this w') = lastDecision (this w).
Proof. unfold onlyCar. intros ->. cbn. auto. Qed.

(** The calls of lines 134-160, in each of the two branches. *)
Lemma throttlePolicy_calls ad col p (w w' : World H) :
  throttlePolicy Math_random ad col p w = inr (tt, w') ->
  if (negb col && Num.ltb (Num.abs ad) (Fin 0.8))%bool then
    exists probe v boost,
      calls w' =
      calls w ++ probe ++
        [CGetSpeed v;
         if Num.ltb v (preferredSpeed (this w))
         then CAccelerate (reactionTime (this w))
         else CReleaseAccelerator (reactionTime (this w));
         boost]
      /\ isProbe probe /\ isBoost boost
  else
    calls w' = calls w ++ [CBrake (reactionTime (this w)); CDeactivateBoost]
    /\ Car.drifting (car (this w')) = false.
Proof.
  unfold throttlePolicy. intros E.
  destruct (negb col && _)%bool.
  - apply bind_inr in E. destruct E as ([] & w1 & E1 & E).
    apply bind_inr in E. destruct E as ([] & w2 & E2 & E).
    destruct (decideDrift_calls Math_random ad w) as (w1' & probe & E1' & C1 & P1).
    rewrite E1 in E1'. injection E1' as <-.
    destruct (throttle_calls w1) as (w2' & E2' & C2).
    rewrite E2 in E2'. injection E2' as <-.
    destruct (decideBoost_calls Math_random p w2 w' E) as (boost & C3 & P3).
    destruct (onlyCar_fields w w1) as (Hrt & Hpref & _).
    { eapply decideDrift_onlyCar; eauto. }
    exists probe, (Car_getSpeed (car (this w1))), boost.
    rewrite C3, C2, C1, Hrt, Hpref, <- !app_assoc. cbn [app]. auto.
  - destruct (brake_branch w) as (w2 & E2 & C & Hcar & _).
    rewrite E in E2. injection E2 as <-. split; auto.
    rewrite Hcar. reflexivity.
Qed.

(** C3. A decision pass that is ready to run returns, and the calls it
    adds to the base class are: at most one turn, then, inside the
    envelope (no collision flagged and [|angleDiff| < 0.8]), at most one
    speed probe of the drift roll, the speed reading [v] of line 141
    followed by [accelerate] when [v < preferredSpeed] and by
    [releaseAccelerator] otherwise, and one boost decision, so no [brake];
    outside the envelope, or with a collision flagged, exactly [brake]
    and [deactivateBoost], and the drift flag is false when the pass
    ends.  A finite heading error of magnitude 0.8 or more, such as pi,
    is outside the envelope. *)
Theorem makeDecisions_throttle_policy p (w : World H) :
  BaseKeepsCursor -> Atan2Bounded Math_atan2 -> Ready w ->
  (exists fuel w',
      makeDecisions Math_atan2 Math_random fuel p w = inr (tt, w'))
  /\ forall fuel w',
      makeDecisions Math_atan2 Math_random fuel p w = inr (tt, w') ->
      exists ad turn,
        headingError Math_atan2 fuel (this w) = inr ad
        /\ isTurn turn
        /\ (if (negb (hasCollisionAhead (checkSensors (this w)))
                && Num.ltb (Num.abs ad) (Fin 0.8))%bool
            then
              exists probe v boost,
                calls w' =
                calls w ++ turn ++ probe ++
                  [CGetSpeed v;
                   if Num.ltb v (preferredSpeed (this w))
                   then CAccelerate (reactionTime (this w))
                   else CReleaseAccelerator (reactionTime (this w));
                   boost]
                /\ isProbe probe /\ isBoost boost
            else
              calls w' =
              calls w ++ turn ++
                [CBrake (reactionTime (this w)); CDeactivateBoost]
              /\ Car.drifting (car (this w')) = false)
        /\ (forall r, ad = Fin r -> 0.8 <= Rabs r ->
            calls w' =
            calls w ++ turn ++
              [CBrake (reactionTime (this w)); CDeactivateBoost]
            /\ Car.drifting (car (this w')) = false)
        /\ ((negb (hasCollisionAhead (checkSensors (this w)))
             && Num.ltb (Num.abs ad) (Fin 0.8))%bool = true ->
            exists added,
              calls w' = calls w ++ added
              /\ forall deltaTime, ~ In (CBrake deltaTime) added).
Proof.
  intros Hbase Hat Hr. split.
  - destruct (makeDecisions_returns Math_atan2 Math_random p w Hbase Hat Hr)
      as (fuel & Hf).
    exists fuel. apply Hf. lia.
  - intros fuel w' E.
    apply makeDecisions_blocks in E.
    destruct E as (ad & w1 & w2 & Eh & E1 & E2 & E3).
    set (col := hasCollisionAhead (checkSensors (this w))) in *.
    destruct (steer_calls ad col w) as (w1' & turn & E1' & C1 & T & _).
    rewrite E1 in E1'. injection E1' as <-.
    rewrite adaptAggressiveness_spec in E3. injection E3 as <-.
    cbn [calls this car set_aggressiveness].
    destruct (onlyCar_fields w w1) as (Hrt & Hpref & _).
    { eapply steer_onlyCar; eauto. }
    pose proof (throttlePolicy_calls ad col p w1 w2 E2) as P.
    rewrite Hrt, Hpref, C1 in P.
    assert (Hpolicy :
      if (negb col && Num.ltb (Num.abs ad) (Fin 0.8))%bool
      then
        exists probe v boost,
          calls w2 =
          calls w ++ turn ++ probe ++
            [CGetSpeed v;
             if Num.ltb v (preferredSpeed (this w))
             then CAccelerate (reactionTime (this w))
             else CReleaseAccelerator (reactionTime (this w));
             boost]
          /\ isProbe probe /\ isBoost boost
      else
        calls w2 =
        calls w ++ turn ++ [CBrake (reactionTime (this w)); CDeactivateBoost]
        /\ Car.drifting (car (this w2)) = false).
    { destruct (negb col && _)%bool.
      - destruct P as (probe & v & boost & C & ? & ?).
        exists probe, v, boost. rewrite C, <- app_assoc. auto.
      - destruct P as (C & ?). rewrite C, <- app_assoc. auto. }
    exists ad, turn. split; [|split; [|split; [|split]]]; auto.
    + intros r -> Hr8.
      assert (Eenv : Num.ltb (Num.abs (Fin r)) (Fin 0.8) = false).
      { apply NumFacts.ltb_fin_false. exact Hr8. }
      rewrite Eenv, andb_false_r in Hpolicy. apply Hpolicy.
    + intros Eenv. rewrite Eenv in Hpolicy.
      destruct Hpolicy as (probe & v & boost & C & Hp & Hb).
      eexists. split; [exact C|]. intros deltaTime Hin.
      repeat (apply in_app_or in Hin; destruct Hin as [Hin|Hin]).
      * destruct T as [->|[[? ->]|[? ->]]]; cbn in Hin;
          intuition discriminate.
      * destruct Hp as [->|[? ->]]; cbn in Hin; intuition discriminate.
      * cbn in Hin. destruct (Num.ltb v _), Hb as [->| ->];
          intuition discriminate.
Qed.

End ThrottlePolicy.

(** ** update (lines 97-111) *)

Section Update.
Context {H : Type} {base : CarBase H}.
Variable Math_atan2 : number -> number -> number.
Variable Math_random : nat -> number.

Lemma onlyCar_config (w w' : World H) :
  onlyCar w w' -> config (this w') = config (this w).
Proof. unfold onlyCar. intros ->. reflexivity. Qed.

Lemma makeDecisions_frame fuel p (w w' : World H) :
  makeDecisions Math_atan2 Math_random fuel p w = inr (tt, w') ->
  config (this w') = config (this w)
  /\ lastDecision (this w') = lastDecision (this w)
  /\ (BaseKeepsCursor -> cursor w' = cursor w).
Proof.
  intros E. apply makeDecisions_blocks in E.
  destruct E as (ad & w1 & w2 & _ & E1 & E2 & E3).
  rewrite adaptAggressiveness_spec in E3. injection E3 as <-.
  assert (O1 : onlyCar w w1) by (eapply steer_onlyCar; eauto).
  assert (O2 : onlyCar w1 w2) by (eapply throttlePolicy_onlyCar; eauto).
  assert (O : onlyCar w w2) by (eapply steps_trans; eauto).
  split; [|split].
  - rewrite <- (onlyCar_config _ _ O). reflexivity.
  - destruct (onlyCar_fields _ _ O) as (_ & _ & _ & _ & <-). reflexivity.
  - intros Hbase. unfold cursor. cbn [this car set_aggressiveness].
    transitivity (cursor w1).
    + eapply (throttlePolicy_cursor Math_random Hbase); eauto.
    + eapply (steer_cursor Hbase); eauto.
Qed.

Lemma update_unfold fuel dt playerCar (w : World H) :
  update Math_atan2 Math_random fuel dt playerCar w =
  match passDue dt playerCar w with
  | Some p =>
      match makeDecisions Math_atan2 Math_random fuel p
              (rearmed (ticked dt w)) with
      | inl e => inl e
      | inr (_, wd) => advanceCheckpoint (moved dt wd)
      end
  | None => advanceCheckpoint (moved dt (ticked dt w))
  end.
Proof.
  unfold update, passDue, bind at 1 2, write, read.
  cbn beta iota. cbn [this lastDecision reactionTime set_lastDecision].
  destruct (Num.geb _ _); [destruct playerCar|]; reflexivity.
Qed.

Lemma advanceCheckpoint_spec (w : World H) :
  advanceCheckpoint w =
  match distanceToCheckpoint (this w) with
  | inl e => inl e
  | inr d => inr (tt, if Num.ltb d (Fin 50) then advanced w else w)
  end.
Proof.
  unfold advanceCheckpoint, advanced, bind, read, lift, write, ret.
  cbn beta iota. cbn [this].
  destruct (distanceToCheckpoint (this w)) as [|d]; [reflexivity|].
  destruct (Num.ltb d (Fin 50)); [|reflexivity].
  destruct (Car.targetCheckpoint (car (this w))); reflexivity.
Qed.

(** A call of [update] that returns: the state [wd] after the decision
    phase (lines 98-103), the distance [d] read after the motion step, and
    the final state. *)
Lemma update_blocks fuel dt playerCar (w w' : World H) :
  update Math_atan2 Math_random fuel dt playerCar w = inr (tt, w') ->
  exists wd d,
    ((passDue dt playerCar w = None /\ wd = ticked dt w)
     \/ (exists p, passDue dt playerCar w = Some p
                   /\ makeDecisions Math_atan2 Math_random fuel p
                        (rearmed (ticked dt w)) = inr (tt, wd)))
    /\ distanceToCheckpoint (this (moved dt wd)) = inr d
    /\ w' = (if Num.ltb d (Fin 50) then advanced (moved dt wd)
             else moved dt wd).
Proof.
  rewrite update_unfold. intros E.
  destruct (passDue dt playerCar w) as [p|] eqn:Ep.
  - destruct (makeDecisions _ _ _ _ _) as [|[[] wd]] eqn:Em; [discriminate|].
    rewrite advanceCheckpoint_spec in E.
    destruct (distanceToCheckpoint _) as [|d] eqn:Ed; [discriminate|].
    injection E as <-. exists wd, d. split; [right; eauto|auto].
  - rewrite advanceCheckpoint_spec in E.
    destruct (distanceToCheckpoint _) as [|d] eqn:Ed; [discriminate|].
    injection E as <-. exists (ticked dt w), d. auto.
Qed.

(** The decision phase leaves the configuration alone, and the cursor too
    when the base class does. *)
Lemma decision_phase_frame fuel dt playerCar (w wd : World H) :
  ((passDue dt playerCar w = None /\ wd = ticked dt w)
   \/ (exists p, passDue dt playerCar w = Some p
                 /\ makeDecisions Math_atan2 Math_random fuel p
                      (rearmed (ticked dt w)) = inr (tt, wd))) ->
  config (this wd) = config (this w)
  /\ (BaseKeepsCursor -> cursor wd = cursor w).
Proof.
  intros [[_ ->]|(p & _ & E)].
  - split; reflexivity.
  - apply makeDecisions_frame in E. destruct E as (Ec & _ & Ek).
    split; [rewrite Ec; reflexivity|]. intros Hb. rewrite (Ek Hb). reflexivity.
Qed.

Lemma config_track (a a' : AICar H) :
  config a' = config a -> track a' = track a /\ racingLine a' = racingLine a.
Proof. unfold config. intros E. injection E. auto. Qed.

Lemma update_frame fuel dt playerCar (w w' : World H) :
  update Math_atan2 Math_random fuel dt playerCar w = inr (tt, w') ->
  config (this w') = config (this w).
Proof.
  intros E. apply update_blocks in E.
  destruct E as (wd & d & Hd & _ & ->).
  destruct (decision_phase_frame _ _ _ _ _ Hd) as [Ec _].
  rewrite <- Ec.
  destruct (Num.ltb d (Fin 50)); unfold advanced, moved; cbn;
    try destruct (Car.targetCheckpoint _); reflexivity.
Qed.

End Update.

(** ** The checkpoint cursor *)

Section CheckpointCursor.
Context {H : Type} {base : CarBase H}.
Variable Math_atan2 : number -> number -> number.
Variable Math_random : nat -> number.

Local Open Scope Z_scope.

Lemma index_in_range {A : Type} (l : list A) (i : Z) :
  (exists a, index l i = Some a) <-> 0 <= i < Z.of_nat (length l).
Proof.
  unfold index. destruct (Z.ltb_spec i 0).
  - split; [intros [? ?]; discriminate|lia].
  - split.
    + intros [a E]. assert (Hn : nth_error l (Z.to_nat i) <> None) by congruence.
      apply nth_error_Some in Hn. lia.
    + intros Hi. apply RacingLine.nth_error_in_range. lia.
Qed.

Lemma cursorValid_same (w w' : World H) :
  cursor w' = cursor w -> track (this w') = track (this w) ->
  cursorValid w -> cursorValid w'.
Proof. unfold cursorValid. intros -> ->. auto. Qed.

Lemma update_returns dt playerCar (w : World H) :
  BaseKeepsCursor -> Atan2Bounded Math_atan2 -> Ready w ->
  exists fuel,
    forall fuel', (fuel <= fuel')%nat ->
    exists w', update Math_atan2 Math_random fuel' dt playerCar w = inr (tt, w').
Proof.
  intros Hbase Hat Hr.
  assert (Hfinish : forall wd,
             cursor wd = cursor w -> track (this wd) = track (this w) ->
             exists w', advanceCheckpoint (moved dt wd) = inr (tt, w')).
  { intros wd Ec Et. rewrite advanceCheckpoint_spec.
    destruct (distanceToCheckpoint_returns (moved dt wd)) as [d ->]; eauto.
    apply (cursorValid_same w); [| |apply Hr].
    - unfold cursor, moved. cbn. rewrite (update_cursor Hbase). exact Ec.
    - unfold moved. cbn. destruct (this wd); exact Et. }
  destruct (passDue dt playerCar w) as [p|] eqn:Ep.
  - assert (Hr' : Ready (rearmed (ticked dt w))).
    { destruct Hr as [Hl Hc Ha]. destruct w as [[] ? ?].
      split; [exact Hl|exact Hc|exact Ha]. }
    destruct (makeDecisions_returns Math_atan2 Math_random p _ Hbase Hat Hr')
      as (fuel & Hf).
    exists fuel. intros fuel' Hle. destruct (Hf fuel' Hle) as [wd Ed].
    rewrite update_unfold, Ep, Ed.
    destruct (makeDecisions_frame _ _ _ _ _ _ Ed) as (Ec & _ & Ek).
    apply Hfinish.
    + rewrite (Ek Hbase). destruct w as [[] ? ?]. reflexivity.
    + apply config_track in Ec. destruct Ec as [-> _].
      destruct w as [[] ? ?]. reflexivity.
  - exists 0%nat. intros fuel' _. rewrite update_unfold, Ep.
    apply Hfinish; destruct w as [[] ? ?]; reflexivity.
Qed.

Lemma cursor_advanced (w : World H) i :
  cursor w = Some i ->
  cursor (advanced w) = Some (Z.rem (i + 1) (checkpointCount w)).
Proof.
  unfold cursor, advanced, checkpointCount. intros ->. reflexivity.
Qed.




End CheckpointCursor.

(** ** Aggressiveness (lines 162-166) *)

Section Aggressiveness.
Context {H : Type} {base : CarBase H}.
Variable Math_atan2 : number -> number -> number.
Variable Math_random : nat -> number.

Local Open Scope R_scope.

(** The last block of the pass, in terms of the state the pass ends in. *)
Lemma makeDecisions_aggressiveness fuel p (w w' : World H) :
  makeDecisions Math_atan2 Math_random fuel p w = inr (tt, w') ->
  difficulty (this w') = difficulty (this w)
  /\ aggressiveness (this w') =
     if Num.ltb (distanceToPlayer (this w') p) (Fin 100)
     then Num.min (Fin 1.0) (Num.add (aggressiveness (this w)) (Fin 0.1))
     else Num.mul (difficulty (this w)) (Fin 0.8).
Proof.
  intros E. apply makeDecisions_blocks in E.
  destruct E as (ad & w1 & w2 & _ & E1 & E2 & E3).
  rewrite adaptAggressiveness_spec in E3. injection E3 as <-.
  assert (O : onlyCar w w2).
  { eapply steps_trans;
      [eapply steer_onlyCar|eapply throttlePolicy_onlyCar]; eauto. }
  destruct (onlyCar_fields _ _ O) as (_ & _ & Ha & Hd & _).
  cbn [this]. rewrite <- Ha, <- Hd.
  destruct (this w2). cbn. auto.
Qed.

(** The capped increment and the baseline on finite values. *)
Lemma capped_increment (g : R) :
  0 <= g <= 1 ->
  Num.min (Fin 1.0) (Num.add (Fin g) (Fin 0.1)) = Fin (Rmin 1 (g + 0.1))
  /\ 0 <= Rmin 1 (g + 0.1) <= 1
  /\ g <= Rmin 1 (g + 0.1)
  /\ (g < 1 -> g < Rmin 1 (g + 0.1)).
Proof.
  intros Hg. unfold Num.min, Num.add, Num.ltb, Rmin.
  destruct (Rlt_dec 1.0 (g + 0.1)), (Rle_dec 1 (g + 0.1));
    repeat split; try (f_equal; lra); try lra.
Qed.

Lemma makeDecisions_tempered fuel p (w w' : World H) d :
  0 <= d <= 1 ->
  makeDecisions Math_atan2 Math_random fuel p w = inr (tt, w') ->
  tempered d (this w) -> tempered d (this w').
Proof.
  intros Hd E (Ed & g & Eg & Hg).
  destruct (makeDecisions_aggressiveness _ _ _ _ E) as (Ed' & Ea).
  split; [congruence|]. rewrite Ea, Eg, Ed.
  destruct (Num.ltb _ _).
  - destruct (capped_increment g Hg) as (-> & ? & _). eauto.
  - exists (d * 0.8). split; [reflexivity|lra].
Qed.

Lemma update_tempered fuel dt playerCar (w w' : World H) d :
  0 <= d <= 1 ->
  update Math_atan2 Math_random fuel dt playerCar w = inr (tt, w') ->
  tempered d (this w) -> tempered d (this w').
Proof.
  intros Hd E Ht. apply update_blocks in E.
  destruct E as (wd & dist & Hwd & _ & ->).
  assert (Htd : tempered d (this wd)).
  { destruct Hwd as [[_ ->]|(p & _ & E)].
    - destruct w as [[] ? ?]. exact Ht.
    - eapply makeDecisions_tempered; [exact Hd|exact E|].
      destruct w as [[] ? ?]. exact Ht. }
  destruct (Num.ltb dist (Fin 50)); unfold advanced, moved; cbn;
    try destruct (Car.targetCheckpoint _); destruct wd as [[] ? ?];
    exact Htd.
Qed.

Lemma runs_tempered (w w' : World H) d :
  0 <= d <= 1 ->
  runs Math_atan2 Math_random w w' ->
  tempered d (this w) -> tempered d (this w').
Proof.
  intros Hd Hruns.
  induction Hruns as [w|w w1 w2 fuel p' _ IH E
                      |w w1 w2 fuel dt' pc _ IH E]; intros Ht.
  - exact Ht.
  - eapply makeDecisions_tempered; eauto.
  - eapply update_tempered; eauto.
Qed.

(** The straight-line distance of line 183-187 between finite positions. *)
Lemma distanceToPlayer_fin (a : AICar H) (p : Car.t H) (x y px py : R) :
  Car.x (car a) = Fin x -> Car.y (car a) = Fin y ->
  Car.x p = Fin px -> Car.y p = Fin py ->
  distanceToPlayer a p
  = Fin (sqrt ((px - x) * (px - x) + (py - y) * (py - y))).
Proof.
  intros Ex Ey Epx Epy. unfold distanceToPlayer.
  rewrite Ex, Ey, Epx, Epy. cbn [Num.sub Num.neg Num.add Num.mul].
  assert (Hsq : forall u, 0 <= u * u) by (intros; nra).
  pose proof (Hsq (px + - x)). pose proof (Hsq (py + - y)).
  rewrite NumFacts.sqrt_fin by lra. reflexivity.
Qed.

(** C2. With difficulty [d] and aggressiveness [g] in [0, 1]: a decision
    pass on a ready object returns.  Let [(x, y)] be the position of the
    car and [(px, py)] that of the opponent when the pass reaches line
    162, both finite: when the straight-line distance
    [sqrt ((px - x)^2 + (py - y)^2)] is below 100, aggressiveness becomes
    [min 1 (g + 0.1)], which is at least [g], above [g] while [g < 1],
    and at most 1; when it is 100 or more, aggressiveness becomes the
    baseline [d * 0.8].  That distance is what [distanceToPlayer]
    computes.  Difficulty is unchanged, and over any sequence of decision
    passes and updates aggressiveness stays in [0, 1]. *)
Theorem aggressiveness_stays_bounded p (w : World H) (d g : R) :
  difficulty (this w) = Fin d -> 0 <= d <= 1 ->
  aggressiveness (this w) = Fin g -> 0 <= g <= 1 ->
  (BaseKeepsCursor -> Atan2Bounded Math_atan2 -> Ready w ->
   exists fuel w',
     makeDecisions Math_atan2 Math_random fuel p w = inr (tt, w'))
  /\ (forall fuel w',
        makeDecisions Math_atan2 Math_random fuel p w = inr (tt, w') ->
        difficulty (this w') = Fin d
        /\ exists g',
            aggressiveness (this w') = Fin g'
            /\ 0 <= g' <= 1
            /\ (if Num.ltb (distanceToPlayer (this w') p) (Fin 100)
                then g' = Rmin 1 (g + 0.1) /\ g <= g' /\ (g < 1 -> g < g')
                else g' = d * 0.8)
            /\ forall x y px py : R,
                Car.x (car (this w')) = Fin x ->
                Car.y (car (this w')) = Fin y ->
                Car.x p = Fin px -> Car.y p = Fin py ->
                (sqrt ((px - x) * (px - x) + (py - y) * (py - y)) < 100 ->
                 g' = Rmin 1 (g + 0.1) /\ g <= g' /\ (g < 1 -> g < g'))
                /\ (100 <= sqrt ((px - x) * (px - x) + (py - y) * (py - y)) ->
                    g' = d * 0.8))
  /\ (forall w',
        runs Math_atan2 Math_random w w' ->
        difficulty (this w') = Fin d
        /\ exists g', aggressiveness (this w') = Fin g' /\ 0 <= g' <= 1).
Proof.
  intros Ed Hd Eg Hg. split; [|split].
  - intros Hbase Hat Hr.
    destruct (makeDecisions_returns Math_atan2 Math_random p w Hbase Hat Hr)
      as (fuel & Hf).
    exists fuel. apply Hf. lia.
  - intros fuel w' E.
    destruct (makeDecisions_aggressiveness _ _ _ _ E) as (Ed' & Ea).
    split; [congruence|]. rewrite Eg, Ed in Ea.
    destruct (capped_increment g Hg) as (Emin & Hr & Hle & Hlt).
    assert (Hcases :
              exists g',
                aggressiveness (this w') = Fin g'
                /\ 0 <= g' <= 1
                /\ if Num.ltb (distanceToPlayer (this w') p) (Fin 100)
                   then g' = Rmin 1 (g + 0.1) /\ g <= g' /\ (g < 1 -> g < g')
                   else g' = d * 0.8).
    { revert Ea.
      destruct (Num.ltb (distanceToPlayer (this w') p) (Fin 100)); intros Ea.
      - exists (Rmin 1 (g + 0.1)). rewrite Ea, Emin.
        split; [reflexivity|]. split; [exact Hr|]. split; [reflexivity|].
        split; [exact Hle|exact Hlt].
      - exists (d * 0.8). rewrite Ea.
        split; [reflexivity|]. split; [lra|auto]. }
    destruct Hcases as (g' & Eg' & Hg' & Hif).
    exists g'. split; [exact Eg'|]. split; [exact Hg'|]. split; [exact Hif|].
    intros x y px py Ex Ey Epx Epy.
    rewrite (distanceToPlayer_fin _ _ x y px py Ex Ey Epx Epy) in Hif.
    split; intros Hdist.
    + apply NumFacts.ltb_fin in Hdist. rewrite Hdist in Hif. exact Hif.
    + apply NumFacts.ltb_fin_false in Hdist. rewrite Hdist in Hif. exact Hif.
  - intros w' Hruns.
    apply (runs_tempered w w' d Hd Hruns). split; eauto.
Qed.

End Aggressiveness.

(** ** Updates without a decision pass *)

Section NoDecisionPass.
Context {H : Type} {base : CarBase H}.
Variable Math_atan2 : number -> number -> number.
Variable Math_random : nat -> number.

Lemma passDue_none dt playerCar (w : World H) :
  playerCar = None
  \/ Num.geb (Num.add (lastDecision (this w)) dt) (reactionTime (this w))
     = false ->
  passDue dt playerCar w = None.
Proof.
  unfold passDue. intros [-> | ->]; [destruct (Num.geb _ _)|]; reflexivity.
Qed.

Lemma set_targetCheckpoint_same (c : Car.t H) :
  Car.set_targetCheckpoint (Car.targetCheckpoint c) c = c.
Proof. destruct c. reflexivity. Qed.

(** When a pass runs the timer restarts from 0. *)
Lemma update_with_pass_resets_timer fuel dt p (w w' : World H) :
  passDue dt (Some p) w = Some p ->
  update Math_atan2 Math_random fuel dt (Some p) w = inr (tt, w') ->
  lastDecision (this w') = Fin 0.
Proof.
  intros Ep E. apply update_blocks in E.
  destruct E as (wd & d & Hwd & _ & ->).
  destruct Hwd as [[Hn _]|(p' & _ & E)]; [congruence|].
  apply makeDecisions_frame in E. destruct E as (_ & El & _).
  assert (El' : lastDecision (this wd) = Fin 0).
  { rewrite El. destruct w as [[] ? ?]. reflexivity. }
  destruct (Num.ltb d (Fin 50)); unfold advanced, moved; cbn;
    try destruct (Car.targetCheckpoint _); destruct wd as [[] ? ?];
    exact El'.
Qed.

(** The cursor step (lines 107-110) in terms of the state it starts in:
    an undefined cursor stays undefined; a cursor [i] must index a
    checkpoint, and becomes [(i + 1) % checkpointCount] when the car is
    closer than 50 to that checkpoint and stays [i] otherwise. *)
Lemma advanceCheckpoint_cursor (w0 w' : World H) :
  advanceCheckpoint w0 = inr (tt, w') ->
  match cursor w0 with
  | None => cursor w' = None
  | Some i =>
      exists checkpoint,
        index (Track.checkpoints (track (this w0))) i = Some checkpoint
        /\ cursor w' =
           if Num.ltb (distanceTo checkpoint (Car.x (car (this w0)))
                         (Car.y (car (this w0)))) (Fin 50)
           then Some (Z.rem (i + 1) (checkpointCount w0))
           else Some i
  end.
Proof.
  rewrite advanceCheckpoint_spec. unfold distanceToCheckpoint, cursor.
  destruct (Car.targetCheckpoint (car (this w0))) as [i|] eqn:Ei.
  - destruct (index (Track.checkpoints (track (this w0))) i) as [c|];
      cbn [defined exc_bind]; [|discriminate].
    intros E. injection E as <-. exists c. split; [reflexivity|].
    unfold distanceTo.
    destruct (Num.ltb _ (Fin 50)); [|exact Ei].
    apply (cursor_advanced w0 i Ei).
  - cbn beta iota.
    assert (Hfar : Num.ltb (Fin 1000) (Fin 50) = false)
      by (apply NumFacts.ltb_fin_false; lra).
    rewrite Hfar. intros E. injection E as <-. exact Ei.
Qed.

(** C10. When the opponent is omitted, or the timer advanced by
    [deltaTime] has not reached the reaction time, [update] is the motion
    step followed by the cursor step and no decision pass: it returns
    whenever the cursor after the motion step is valid, and then
    aggressiveness and the configuration are unchanged, the timer has
    grown by exactly [deltaTime], the only call made is [Car.update], no
    random number was drawn, and the car is the one [Car.update] returned
    but for its cursor (so the drift flag and the rest of the base state,
    the boost flag included, are those [Car.update] left).  The cursor
    step has taken place: with [i] the cursor [Car.update] left, the
    final cursor is [(i + 1) % checkpointCount] when the position
    [Car.update] left is closer than 50 to checkpoint [i], and [i]
    otherwise; an undefined cursor stays undefined. *)
Theorem update_without_decision_pass fuel dt playerCar (w : World H) :
  playerCar = None
  \/ Num.geb (Num.add (lastDecision (this w)) dt) (reactionTime (this w))
     = false ->
  update Math_atan2 Math_random fuel dt playerCar w
  = advanceCheckpoint (moved dt (ticked dt w))
  /\ (cursorValid (moved dt (ticked dt w)) ->
      exists w',
        update Math_atan2 Math_random fuel dt playerCar w = inr (tt, w'))
  /\ forall w',
      update Math_atan2 Math_random fuel dt playerCar w = inr (tt, w') ->
      aggressiveness (this w') = aggressiveness (this w)
      /\ config (this w') = config (this w)
      /\ lastDecision (this w') = Num.add (lastDecision (this w)) dt
      /\ (exists tc,
             car (this w')
             = Car.set_targetCheckpoint tc (Car_update dt (car (this w))))
      /\ Car.drifting (car (this w'))
         = Car.drifting (Car_update dt (car (this w)))
      /\ Car.hidden (car (this w'))
         = Car.hidden (Car_update dt (car (this w)))
      /\ calls w' = calls w ++ [CUpdate dt]
      /\ draws w' = draws w
      /\ car (this w')
         = Car.set_targetCheckpoint (cursor w') (Car_update dt (car (this w)))
      /\ match Car.targetCheckpoint (Car_update dt (car (this w))) with
         | None => cursor w' = None
         | Some i =>
             exists checkpoint,
               index (Track.checkpoints (track (this w))) i = Some checkpoint
               /\ cursor w' =
                  if Num.ltb
                       (distanceTo checkpoint
                          (Car.x (Car_update dt (car (this w))))
                          (Car.y (Car_update dt (car (this w)))))
                       (Fin 50)
                  then Some (Z.rem (i + 1) (checkpointCount w))
                  else Some i
         end.
Proof.
  intros Hno. apply passDue_none in Hno.
  assert (Eu : update Math_atan2 Math_random fuel dt playerCar w
               = advanceCheckpoint (moved dt (ticked dt w))).
  { rewrite update_unfold, Hno. reflexivity. }
  split; [exact Eu|]. split.
  - intros Hv. rewrite Eu, advanceCheckpoint_spec.
    destruct (distanceToCheckpoint_returns _ Hv) as [d ->]. eauto.
  - intros w' E. rewrite Eu in E.
    pose proof (advanceCheckpoint_cursor _ _ E) as Hcur.
    assert (Hframe :
              aggressiveness (this w') = aggressiveness (this w)
              /\ config (this w') = config (this w)
              /\ lastDecision (this w') = Num.add (lastDecision (this w)) dt
              /\ car (this w')
                 = Car.set_targetCheckpoint (cursor w')
                     (Car_update dt (car (this w)))
              /\ calls w' = calls w ++ [CUpdate dt]
              /\ draws w' = draws w).
    { rewrite advanceCheckpoint_spec in E.
      destruct (distanceToCheckpoint _) as [|d]; [discriminate|].
      injection E as <-. clear Hcur Eu Hno.
      destruct w as [[c tr df rt ld sens line ag dp ps] cs ds].
      destruct (Num.ltb d (Fin 50)); unfold advanced, moved, ticked, cursor;
        cbn.
      - destruct (Car.targetCheckpoint (Car_update dt c)) as [i|] eqn:Ei;
          cbn; repeat split;
          first [reflexivity | symmetry; apply set_targetCheckpoint_same].
      - repeat split; try reflexivity.
        symmetry. apply set_targetCheckpoint_same. }
    destruct Hframe as (Ha & Hc & Hl & Hcar & Hcalls & Hdraws).
    repeat (split; [assumption|]).
    split; [eexists; exact Hcar|].
    split; [rewrite Hcar; destruct (Car_update dt (car (this w))); reflexivity|].
    split; [rewrite Hcar; destruct (Car_update dt (car (this w))); reflexivity|].
    repeat (split; [assumption|]).
    assert (E0 : cursor (moved dt (ticked dt w))
                 = Car.targetCheckpoint (Car_update dt (car (this w)))).
    { destruct w as [[] ? ?]. reflexivity. }
    rewrite E0 in Hcur.
    destruct (Car.targetCheckpoint (Car_update dt (car (this w)))) as [i|];
      [|exact Hcur].
    destruct w as [[] ? ?]. exact Hcur.
Qed.

End NoDecisionPass.

(** ** The range of the heading error *)

Module HeadingRange.
Import HeadingError.
Local Open Scope R_scope.



(** A bearing and a heading that both lie in [-pi, pi], as [Math.atan2]
    returns the one and a normalized heading is the other, differ by two
    turns at most: each loop takes one step or none. *)
Lemma angleDiffOf_one_turn (b h : R) :
  - PI <= b <= PI -> - PI <= h <= PI ->
  exists a : R, angleDiffOf 1 (Fin b) (Fin h) = inr (Fin a).
Proof.
  pose proof PI_RGT_0 as Hpi. intros Hb Hh.
  unfold angleDiffOf. simpl.
  repeat match goal with
         | |- context [Rlt_dec ?u ?v] => destruct (Rlt_dec u v); simpl
         end;
    first [eexists; reflexivity | exfalso; lra].
Qed.




End HeadingRange.

(** ** Sensors (lines 169-181, 124-125) *)

Section Sensors.
Context {H : Type} {base : CarBase H}.
Variable Math_atan2 : number -> number -> number.
Variable Math_random : nat -> number.

Lemma runs_config (w w' : World H) :
  runs Math_atan2 Math_random w w' -> config (this w') = config (this w).
Proof.
  induction 1 as [w|w w1 w2 fuel p _ IH E|w w1 w2 fuel dt pc _ IH E].
  - reflexivity.
  - rewrite <- IH. apply makeDecisions_frame in E. apply E.
  - rewrite <- IH. eapply update_frame; eauto.
Qed.

Lemma checkSensors_default (a : AICar H) :
  avoidanceSensors a = defaultSensors ->
  checkSensors a =
  [reading a (Fin (-0.5)) (Fin 80);
   reading a (Fin 0) (Fin 100);
   reading a (Fin 0.5) (Fin 80)].
Proof.
  intros E. unfold checkSensors, reading, rayOut, rayEnd. rewrite E.
  cbn [map defaultSensors Sensor.angle Sensor.distance fst snd].
  repeat match goal with
    | |- context [Track.isPointOutOfBounds ?t ?u ?v] =>
        destruct (Track.isPointOutOfBounds t u v)
    end; reflexivity.
Qed.

Lemma reading_below_clear (a : AICar H) off dist :
  Num.ltb (reading a off dist) (Fin 1.0) = rayOut a off dist.
Proof.
  unfold reading. destruct (rayOut a off dist); unfold Num.ltb.
  - destruct (Rlt_dec 0.5 1.0); auto. lra.
  - destruct (Rlt_dec 1.0 1.0); auto. lra.
Qed.

(** C7. On an [AICar] as built by the constructor, and after any
    sequence of decision passes and updates, [checkSensors] returns exactly
    three readings, for the rays at offsets -0.5, 0 and 0.5 from the
    heading and ranges 80, 100 and 80; the reading of a ray is 1.0 when
    its end point is in bounds and 0.5 when it is out of bounds; and the
    collision flag of the pass is set exactly when some reading is below
    1.0, that is, when some end point is out of bounds. *)
Theorem checkSensors_three_rays
    x y width height color angle tr difficulty (a : AICar H) (w : World H) :
  @constructor H base x y width height color angle tr difficulty = inr a ->
  runs Math_atan2 Math_random (mkWorld a [] 0) w ->
  checkSensors (this w) =
    [reading (this w) (Fin (-0.5)) (Fin 80);
     reading (this w) (Fin 0) (Fin 100);
     reading (this w) (Fin 0.5) (Fin 80)]
  /\ length (checkSensors (this w)) = 3%nat
  /\ (forall off dist,
         (rayOut (this w) off dist = false ->
          reading (this w) off dist = Fin 1.0)
         /\ (rayOut (this w) off dist = true ->
             reading (this w) off dist = Fin 0.5))
  /\ Num.ltb (Fin 0.5) (Fin 1.0) = true
  /\ (hasCollisionAhead (checkSensors (this w)) = true <->
      exists r, In r (checkSensors (this w)) /\ Num.ltb r (Fin 1.0) = true)
  /\ hasCollisionAhead (checkSensors (this w)) =
     (rayOut (this w) (Fin (-0.5)) (Fin 80)
      || rayOut (this w) (Fin 0) (Fin 100)
      || rayOut (this w) (Fin 0.5) (Fin 80))%bool.
Proof.
  intros Ec Hruns.
  assert (Es : avoidanceSensors (this w) = defaultSensors).
  { apply runs_config in Hruns. unfold config in Hruns. cbn [this] in Hruns.
    injection Hruns as _ _ _ -> _ _ _.
    destruct (constructor_returns x y width height color angle tr difficulty)
      as (line & _ & Ec').
    rewrite Ec in Ec'. injection Ec' as ->. reflexivity. }
  pose proof (checkSensors_default (this w) Es) as Echk.
  split; [exact Echk|]. split; [rewrite Echk; reflexivity|].
  split; [|split; [|split]].
  - intros off dist. unfold reading. split; intros ->; reflexivity.
  - unfold Num.ltb. destruct (Rlt_dec 0.5 1.0); auto. lra.
  - unfold hasCollisionAhead. apply existsb_exists.
  - rewrite Echk. unfold hasCollisionAhead. cbn [existsb].
    rewrite !reading_below_clear, orb_false_r, orb_assoc. reflexivity.
Qed.

End Sensors.

(** ** isAheadOf (lines 203-220) *)

Section RacePosition.
Context {H : Type} {base : CarBase H}.

(** C8. When the cursor of the [AICar], if defined, indexes a checkpoint,
    [isAheadOf] returns; it returns [true] exactly when the car is ahead
    (greater cursor, or equal cursors and a strictly smaller distance to
    the shared checkpoint), and [false] in every other case, among them
    an undefined cursor on either side. *)
Theorem isAheadOf_spec (a : AICar H) (otherCar : Car.t H) :
  (forall i, Car.targetCheckpoint (car a) = Some i ->
             exists c, index (Track.checkpoints (track a)) i = Some c) ->
  exists b,
    isAheadOf a otherCar = inr b
    /\ (b = true <-> ahead a otherCar)
    /\ (Car.targetCheckpoint (car a) = None
        \/ Car.targetCheckpoint otherCar = None -> b = false).
Proof.
  intros Hv. unfold isAheadOf, ahead, distanceToCheckpoint.
  destruct (Car.targetCheckpoint (car a)) as [mine|].
  2:{ exists false. split; [reflexivity|]. split; [|auto].
      split; [discriminate|]. intros (? & ? & ? & _). discriminate. }
  destruct (Car.targetCheckpoint otherCar) as [theirs|].
  2:{ exists false. split; [reflexivity|]. split; [|auto].
      split; [discriminate|]. intros (? & ? & _ & ? & _). discriminate. }
  destruct (Z.gtb_spec mine theirs) as [Hgt|Hle].
  { exists true. split; [reflexivity|]. split.
    - split; [|reflexivity]. intros _. exists mine, theirs.
      repeat split; auto. left. lia.
    - intros [?|?]; discriminate. }
  destruct (Z.eqb_spec mine theirs) as [->|Hne].
  - destruct (Hv theirs eq_refl) as [c Ec]. rewrite Ec. cbn [defined exc_bind].
    eexists. split; [reflexivity|]. split.
    + split.
      * intros Elt. exists theirs, theirs. repeat split; auto.
        right. split; auto. exists c. split; auto.
      * intros (m & t & Em & Et & [Hgt|(_ & c' & Ec' & Elt)]).
        -- injection Em as <-. injection Et as <-. lia.
        -- injection Em as <-. rewrite Ec in Ec'. injection Ec' as <-.
           exact Elt.
    + intros [?|?]; discriminate.
  - exists false. split; [reflexivity|]. split.
    + split; [discriminate|].
      intros (m & t & Em & Et & [Hgt|(Heq & _)]);
        injection Em as <-; injection Et as <-; [lia|contradiction].
    + intros [?|?]; discriminate.
Qed.

End RacePosition.

(** * The properties on the concrete driver *)

Module Examples.
Import Demo.
Local Open Scope R_scope.

Lemma plainCar_keeps_cursor : @BaseKeepsCursor _ PlainCar.base.
Proof. split; intros; reflexivity. Qed.

Lemma atan2_bounded : Atan2Bounded atan2.
Proof. intros a b. split; discriminate. Qed.

Lemma driver_built :
  exists line,
    built = inr driver /\ driver = driverWith line /\ length line = 18%nat.
Proof.
  destruct (constructor_returns (base := PlainCar.base)
              (Fin 0) (Fin 0) (Fin 20) (Fin 40) "red" (Fin 0) course None)
    as (line & El & E).
  destruct (RacingLine.calculateRacingLine_length course)
    as (line' & El' & _ & Hlen).
  rewrite El in El'. injection El' as <-.
  exists line. unfold driver, built. rewrite E. auto.
Qed.

Lemma world_ready : Ready world.
Proof.
  destruct driver_built as (line & _ & Ed & Hlen).
  unfold world. split; cbn [this]; rewrite Ed.
  - cbn. intros ->. discriminate.
  - unfold cursorValid, cursor. cbn. eexists. reflexivity.
  - split; discriminate.
Qed.



(** The plain car moves in [update] only: a pass leaves it in place. *)
Lemma plain_pass_in_place fuel p :
  preserves
    (keeps (fun w : World PlainCar.state =>
              (Car.x (car (this w)), Car.y (car (this w)))))
    (makeDecisions atan2 random fuel p).
Proof.
  unfold makeDecisions, steer, throttlePolicy, decideDrift, throttle,
    decideBoost, adaptAggressiveness.
  cbv zeta. body.
Qed.

Lemma aggressiveness_stays_bounded_witness :
  difficulty (this world) = Fin 0.85 /\ 0 <= 0.85 <= 1
  /\ aggressiveness (this world) = Fin (0.85 * 0.8) /\ 0 <= 0.85 * 0.8 <= 1
  /\ exists fuel w',
      makeDecisions atan2 random fuel player world = inr (tt, w')
      /\ Car.x (car (this w')) = Fin 0 /\ Car.y (car (this w')) = Fin 0
      /\ Car.x player = Fin 40 /\ Car.y player = Fin 0
      /\ sqrt ((40 - 0) * (40 - 0) + (0 - 0) * (0 - 0)) < 100
      /\ difficulty (this w') = Fin 0.85
      /\ aggressiveness (this w') = Fin (Rmin 1 (0.85 * 0.8 + 0.1))
      /\ 0.85 * 0.8 < Rmin 1 (0.85 * 0.8 + 0.1) <= 1.
Proof.
  assert (Ed : difficulty (this world) = Fin 0.85).
  { destruct driver_built as (line & _ & E & _). unfold world. cbn [this].
    rewrite E. reflexivity. }
  assert (Ea : aggressiveness (this world) = Fin (0.85 * 0.8)).
  { destruct driver_built as (line & _ & E & _). unfold world. cbn [this].
    rewrite E. reflexivity. }
  assert (Hd : 0 <= 0.85 <= 1) by lra.
  assert (Hg : 0 <= 0.85 * 0.8 <= 1) by lra.
  repeat (split; [assumption|]).
  destruct (aggressiveness_stays_bounded atan2 random player world
              0.85 (0.85 * 0.8) Ed Hd Ea Hg) as (Hret & Hpass & _).
  destruct (Hret plainCar_keeps_cursor atan2_bounded world_ready)
    as (fuel & w' & E).
  exists fuel, w'. split; [exact E|].
  assert (Hpos : Car.x (car (this w')) = Fin 0
                 /\ Car.y (car (this w')) = Fin 0).
  { pose proof (plain_pass_in_place fuel player _ _ _ E) as Hk.
    unfold keeps in Hk.
    pose proof (f_equal fst Hk) as Hx. pose proof (f_equal snd Hk) as Hy.
    cbn [fst snd] in Hx, Hy. rewrite Hx, Hy.
    destruct driver_built as (line & _ & Ew & _).
    unfold world. cbn [this]. rewrite Ew. split; reflexivity. }
  destruct Hpos as [Ex Ey].
  assert (Hnear : sqrt ((40 - 0) * (40 - 0) + (0 - 0) * (0 - 0)) < 100).
  { replace ((40 - 0) * (40 - 0) + (0 - 0) * (0 - 0)) with (40 * 40) by lra.
    rewrite sqrt_square by lra. lra. }
  destruct (Hpass fuel w' E) as (Ed' & g' & Eg' & Hg' & _ & Hdist).
  destruct (Hdist 0 0 40 0 Ex Ey eq_refl eq_refl) as (Hin & _).
  destruct (Hin Hnear) as (-> & _ & Hlt).
  repeat (split; [first [assumption | reflexivity]|]).
  split; [apply Hlt; lra|apply Hg'].
Defined.

(** The first pass of the driver: heading error 0, no collision flagged. *)
Lemma world_heading (fuel : nat) :
  headingError atan2 fuel (this world) = inr (Fin (0 + - 0)).
Proof.
  pose proof PI_RGT_0 as Hpi.
  destruct driver_built as (line & _ & Ed & Hlen).
  unfold headingError.
  destruct (getTargetRacingPoint_defined (this world)) as [pt ->].
  { apply world_ready. }
  cbn [defined exc_bind]. unfold atan2, world. cbn [this]. rewrite Ed.
  cbn [car driverWith Car.angle Car.set_maxVelocity Car.set_targetCheckpoint
       Car_new PlainCar.base].
  unfold angleDiffOf.
  replace (Num.sub (Fin 0) (Fin 0)) with (Fin (0 + - 0)) by reflexivity.
  assert (E1 : whileAbove fuel (Fin (0 + - 0)) = inr (Fin (0 + - 0))).
  { destruct fuel; simpl; destruct (Rlt_dec PI (0 + - 0)); auto; lra. }
  rewrite E1. cbn [exc_bind].
  destruct fuel; simpl; destruct (Rlt_dec (0 + - 0) (- PI)); auto; lra.
Qed.

Lemma world_clear : hasCollisionAhead (checkSensors (this world)) = false.
Proof.
  destruct driver_built as (line & _ & Ed & _).
  unfold world. cbn [this]. rewrite Ed.
  rewrite checkSensors_default by reflexivity.
  unfold hasCollisionAhead. cbn [existsb].
  rewrite !reading_below_clear. reflexivity.
Qed.

Lemma makeDecisions_throttle_policy_witness :
  @BaseKeepsCursor _ PlainCar.base /\ Atan2Bounded atan2 /\ Ready world
  /\ exists fuel w' added,
      makeDecisions atan2 random fuel player world = inr (tt, w')
      /\ calls w' = added
      /\ forall deltaTime, ~ In (CBrake deltaTime) added.
Proof.
  split; [exact plainCar_keeps_cursor|].
  split; [exact atan2_bounded|].
  split; [exact world_ready|].
  destruct (makeDecisions_throttle_policy atan2 random player world
              plainCar_keeps_cursor atan2_bounded world_ready)
    as ((fuel & w' & E) & Hpass).
  destruct (Hpass fuel w' E) as (ad & turn & Eh & _ & _ & _ & Hin).
  rewrite world_heading in Eh. injection Eh as <-.
  destruct Hin as (added & C & Hno).
  { rewrite world_clear. cbn [negb andb].
    apply NumFacts.ltb_fin. replace (0 + - 0) with 0 by lra.
    rewrite Rabs_R0. lra. }
  exists fuel, w', added. split; [exact E|]. split; [exact C|exact Hno].
Defined.

Lemma constructor_stores_difficulty_witness :
  0 <= 0.85 <= 1
  /\ exists a,
      constructor (Fin 0) (Fin 0) (Fin 20) (Fin 40) "red" (Fin 0) course
        (Some (Fin 0.85)) = inr a
      /\ difficulty a = Fin 0.85
      /\ aggressiveness a = Fin (0.85 * 0.8) /\ 0 <= 0.85 * 0.8 <= 1
      /\ driftProbability a = Fin (0.85 * 0.3) /\ 0 <= 0.85 * 0.3 <= 1.
Proof.
  assert (Hr : 0 <= 0.85 <= 1) by lra.
  split; [exact Hr|].
  destruct (constructor_stores_difficulty (base := PlainCar.base)
              (Fin 0) (Fin 0) (Fin 20) (Fin 40) "red" (Fin 0) course
              (Fin 0.85))
    as (a & E & Ed & _ & _ & Hin).
  exists a. split; [exact E|]. split; [exact Ed|].
  exact (Hin 0.85 eq_refl Hr).
Defined.

(** A difficulty of 2 is stored as 2, with aggressiveness 1.6. *)
Lemma constructor_does_not_clamp :
  exists a,
    constructor (Fin 0) (Fin 0) (Fin 20) (Fin 40) "red" (Fin 0) course
      (Some (Fin 2)) = inr a
    /\ difficulty a = Fin 2
    /\ aggressiveness a = Fin (2 * 0.8)
    /\ ~ (2 <= 1)
    /\ ~ (2 * 0.8 <= 1).
Proof.
  destruct (constructor_stores (base := PlainCar.base)
              (Fin 0) (Fin 0) (Fin 20) (Fin 40) "red" (Fin 0) course (Fin 2))
    as (a & E & Ed & Ea & _).
  exists a. repeat split; try assumption; lra.
Qed.

Lemma checkSensors_three_rays_witness :
  built = inr driver
  /\ runs atan2 random (mkWorld driver [] 0) world
  /\ length (checkSensors (this world)) = 3%nat
  /\ hasCollisionAhead (checkSensors (this world)) = false.
Proof.
  destruct driver_built as (line & Eb & Ed & _).
  assert (Hruns : runs atan2 random (mkWorld driver [] 0) world)
    by apply runs_here.
  split; [exact Eb|]. split; [exact Hruns|].
  destruct (checkSensors_three_rays atan2 random
              (Fin 0) (Fin 0) (Fin 20) (Fin 40) "red" (Fin 0) course None
              driver world Eb Hruns) as (_ & Hlen & _ & _ & _ & Hflag).
  split; [exact Hlen|]. rewrite Hflag.
  unfold rayOut, world. cbn [this]. rewrite Ed. reflexivity.
Defined.

Lemma isAheadOf_spec_witness :
  (forall i, Car.targetCheckpoint (car driver) = Some i ->
             exists c, index (Track.checkpoints (track driver)) i = Some c)
  /\ exists b,
      isAheadOf driver player = inr b /\ (b = true <-> ahead driver player).
Proof.
  assert (Hv : forall i, Car.targetCheckpoint (car driver) = Some i ->
                 exists c,
                   index (Track.checkpoints (track driver)) i = Some c).
  { destruct driver_built as (line & _ & -> & _). cbn.
    intros i E. injection E as <-. eexists. reflexivity. }
  split; [exact Hv|].
  destruct (isAheadOf_spec driver player Hv) as (b & E & Hb & _).
  exists b. split; assumption.
Defined.





(** The driver starts on checkpoint 0 with speed 0: the motion step
    leaves it there, closer than 50 to the checkpoint. *)
Lemma world_on_checkpoint (dt : R) :
  Car.targetCheckpoint (Car_update (Fin dt) (car (this world))) = Some 0%Z
  /\ index (Track.checkpoints (track (this world))) 0
     = Some (Point.mk (Fin 0) (Fin 0))
  /\ Num.ltb
       (distanceTo (Point.mk (Fin 0) (Fin 0))
          (Car.x (Car_update (Fin dt) (car (this world))))
          (Car.y (Car_update (Fin dt) (car (this world)))))
       (Fin 50) = true
  /\ checkpointCount world = 3%Z.
Proof.
  destruct driver_built as (line & _ & Ed & _).
  unfold world, checkpointCount. cbn [this]. rewrite Ed.
  split; [reflexivity|]. split; [reflexivity|]. split; [|reflexivity].
  unfold distanceTo.
  cbn [driverWith car Car_update PlainCar.base Car.set_maxVelocity
       Car.set_targetCheckpoint Car_new PlainCar.set_position Car.x Car.y
       Car.hidden Car.angle PlainCar.velocity Point.x Point.y
       Num.add Num.sub Num.mul Num.neg Num.sin Num.cos].
  rewrite NumFacts.sqrt_fin.
  - apply NumFacts.ltb_fin.
    match goal with
    | |- sqrt ?e < 50 => replace e with 0 by ring
    end.
    rewrite sqrt_0. lra.
  - match goal with
    | |- 0 <= ?e => replace e with 0 by ring
    end.
    lra.
Qed.

Lemma update_without_decision_pass_witness :
  (@None (Car.t PlainCar.state) = None
   \/ Num.geb (Num.add (lastDecision (this world)) (Fin 0.016))
        (reactionTime (this world)) = false)
  /\ exists w',
      update atan2 random 0 (Fin 0.016) None world = inr (tt, w')
      /\ cursor w' = Some 1%Z
      /\ lastDecision (this w')
         = Num.add (lastDecision (this world)) (Fin 0.016)
      /\ aggressiveness (this w') = aggressiveness (this world)
      /\ calls w' = calls world ++ [CUpdate (Fin 0.016)]
      /\ draws w' = draws world.
Proof.
  assert (Hno : @None (Car.t PlainCar.state) = None
                \/ Num.geb (Num.add (lastDecision (this world)) (Fin 0.016))
                     (reactionTime (this world)) = false)
    by (left; reflexivity).
  split; [exact Hno|].
  destruct (update_without_decision_pass atan2 random 0 (Fin 0.016) None
              world Hno) as (_ & Hret & Hall).
  destruct (world_on_checkpoint 0.016) as (Ei & Ec & Hnear & Hn).
  destruct Hret as (w' & E).
  { unfold cursorValid, cursor, moved, ticked.
    cbn [this car track set_car set_lastDecision].
    rewrite Ei, Ec. eauto. }
  exists w'. split; [exact E|].
  destruct (Hall w' E)
    as (Ha & _ & Hl & _ & _ & _ & Hcalls & Hdraws & _ & Hcur).
  rewrite Ei in Hcur. destruct Hcur as (c & Ec' & Hcur).
  rewrite Ec in Ec'. injection Ec' as <-.
  rewrite Hnear, Hn in Hcur.
  repeat (split; [assumption|]). exact Hdraws.
Defined.

End Examples.

(** * More properties *)

(** ** Steering and the random draws of a pass *)

Section PassEffects.
Context {H : Type} {base : CarBase H}.
Variable Math_atan2 : number -> number -> number.
Variable Math_random : nat -> number.

Lemma steer_exact ad col (w : World H) :
  exists w',
    steer ad col w = inr (tt, w')
    /\ calls w' = calls w ++ turnFor ad col (reactionTime (this w))
    /\ draws w' = draws w.
Proof.
  unfold steer, turnFor.
  destruct (Num.gtb ad (Fin 0.1)); [|destruct (Num.ltb ad (Fin (-0.1)))];
    eexists; (split; [reflexivity|]); cbn; split; auto.
  symmetry. apply app_nil_r.
Qed.

(** *** Counting draws *)

Lemma upTo_ret {A : Type} (a : A) : preserves (@drawsUpTo H 0) (ret a).
Proof. intros w ? w' E. injection E as _ <-. unfold drawsUpTo. lia. Qed.

Lemma upTo_bind {A B : Type} (j k : nat) (m : M H A) (f : A -> M H B) :
  preserves (drawsUpTo j) m -> (forall a, preserves (drawsUpTo k) (f a)) ->
  preserves (drawsUpTo (j + k)) (bind m f).
Proof.
  intros Hm Hf w b w'' E. apply bind_inr in E.
  destruct E as (a & w' & E1 & E2).
  specialize (Hm _ _ _ E1). specialize (Hf _ _ _ _ E2).
  unfold drawsUpTo in *. lia.
Qed.

Lemma upTo_weaken {A : Type} (j k : nat) (m : M H A) :
  (j <= k)%nat -> preserves (drawsUpTo j) m -> preserves (drawsUpTo k) m.
Proof.
  intros Hle Hm w a w' E. specialize (Hm _ _ _ E).
  unfold drawsUpTo in *. lia.
Qed.

Lemma upTo_keeps {A : Type} (m : M H A) :
  preserves (keeps (@draws H)) m -> preserves (drawsUpTo 0) m.
Proof.
  intros Hm w a w' E. specialize (Hm _ _ _ E).
  unfold drawsUpTo, keeps in *. lia.
Qed.

Lemma upTo_random : preserves (@drawsUpTo H 1) (random Math_random).
Proof.
  intros w a w' E. unfold random in E. injection E as _ <-.
  unfold drawsUpTo. cbn. lia.
Qed.

Lemma upTo_andThen (j k : nat) (a b : M H bool) :
  preserves (drawsUpTo j) a -> preserves (drawsUpTo k) b ->
  preserves (drawsUpTo (j + k)) (andThen a b).
Proof.
  intros Ha Hb. unfold andThen. apply upTo_bind; auto.
  intros [|]; auto. apply (upTo_weaken 0); [lia|apply upTo_ret].
Qed.

Lemma decideDrift_draws ad :
  preserves (@drawsUpTo H 1) (decideDrift Math_random ad).
Proof.
  unfold decideDrift. apply (upTo_bind 1 0).
  - apply (upTo_andThen 0 1); [apply upTo_ret|].
    apply (upTo_andThen 0 1).
    + apply upTo_keeps. body.
    + apply (upTo_bind 1 0); [apply upTo_random|intro].
      apply upTo_keeps. body.
  - intros [|]; apply upTo_keeps; body.
Qed.

Lemma throttle_draws : preserves (@drawsUpTo H 0) (@throttle H base).
Proof. apply upTo_keeps. unfold throttle. body. Qed.

Lemma decideBoost_draws p :
  preserves (@drawsUpTo H 2) (decideBoost Math_random p).
Proof.
  unfold decideBoost. apply (upTo_bind 0 2).
  { apply upTo_keeps. body. }
  intros ahead. apply (upTo_bind 1 1).
  { destruct (negb ahead).
    - apply (upTo_weaken 0); [lia|apply upTo_ret].
    - apply (upTo_andThen 0 1).
      + apply upTo_keeps. body.
      + apply (upTo_bind 1 0); [apply upTo_random|intro].
        apply upTo_keeps. body. }
  intros should. apply (upTo_bind 1 0).
  { apply (upTo_andThen 0 1); [apply upTo_ret|].
    apply (upTo_bind 1 0); [apply upTo_random|intro].
    apply upTo_keeps. body. }
  intros [|]; apply upTo_keeps; body.
Qed.

Lemma throttlePolicy_draws ad col p (w w' : World H) :
  throttlePolicy Math_random ad col p w = inr (tt, w') ->
  drawsUpTo 3 w w'
  /\ ((negb col && Num.ltb (Num.abs ad) (Fin 0.8))%bool = false ->
      draws w' = draws w).
Proof.
  unfold throttlePolicy. intros E.
  destruct (negb col && _)%bool.
  - split; [|discriminate].
    revert E. generalize w tt w'.
    change (preserves (@drawsUpTo H 3)
              (bind (decideDrift Math_random ad) (fun _ =>
               bind (@throttle H base) (fun _ =>
               decideBoost Math_random p)))).
    apply (upTo_bind 1 2); [apply decideDrift_draws|intro].
    apply (upTo_bind 0 2); [apply throttle_draws|intro].
    apply decideBoost_draws.
  - destruct (brake_branch w) as (w2 & E2 & _ & _ & Hd).
    rewrite E in E2. injection E2 as <-.
    split; [unfold drawsUpTo; lia|auto].
Qed.

End PassEffects.

Section PassTheorems.
Context {H : Type} {base : CarBase H}.
Variable Math_atan2 : number -> number -> number.
Variable Math_random : nat -> number.

Local Open Scope R_scope.

Lemma no_turn_in_policy ad col p (w w' : World H) :
  throttlePolicy Math_random ad col p w = inr (tt, w') ->
  exists rest,
    calls w' = calls w ++ rest
    /\ forallb (fun c => negb (isTurnCall c)) rest = true.
Proof.
  intros E. pose proof (throttlePolicy_calls Math_random ad col p w w' E) as P.
  destruct (negb col && _)%bool.
  - destruct P as (probe & v & boost & C & Hp & Hb).
    eexists. split; [exact C|].
    rewrite forallb_app.
    destruct Hp as [->|[? ->]], Hb as [->| ->];
      destruct (Num.ltb v _); reflexivity.
  - destruct P as (C & _). eexists. split; [exact C|reflexivity].
Qed.

(** X1. A decision pass turns at most once, and before anything else:
    the calls it adds are [turnRight] when the heading error is above
    0.1, [turnLeft] when it is below -0.1 and no turn otherwise (so none
    for NaN), for the reaction time times 1.5 when a collision is flagged
    and times 1.0 when not, followed by calls none of which is a turn. *)
Theorem makeDecisions_turns_once fuel p (w w' : World H) :
  makeDecisions Math_atan2 Math_random fuel p w = inr (tt, w') ->
  exists ad rest,
    headingError Math_atan2 fuel (this w) = inr ad
    /\ calls w' =
       calls w
       ++ turnFor ad (hasCollisionAhead (checkSensors (this w)))
            (reactionTime (this w))
       ++ rest
    /\ forallb (fun c => negb (isTurnCall c)) rest = true
    /\ (forall r, ad = Fin r -> 0.1 < r ->
        exists dt, turnFor ad (hasCollisionAhead (checkSensors (this w)))
                     (reactionTime (this w)) = [CTurnRight dt])
    /\ (forall r, ad = Fin r -> r < -0.1 ->
        exists dt, turnFor ad (hasCollisionAhead (checkSensors (this w)))
                     (reactionTime (this w)) = [CTurnLeft dt])
    /\ (forall r, ad = Fin r -> -0.1 <= r <= 0.1 ->
        turnFor ad (hasCollisionAhead (checkSensors (this w)))
          (reactionTime (this w)) = [])
    /\ (ad = NaN ->
        turnFor ad (hasCollisionAhead (checkSensors (this w)))
          (reactionTime (this w)) = []).
Proof.
  intros E. apply makeDecisions_blocks in E.
  destruct E as (ad & w1 & w2 & Eh & E1 & E2 & E3).
  set (col := hasCollisionAhead (checkSensors (this w))) in *.
  destruct (steer_exact ad col w) as (w1' & E1' & C1 & _).
  rewrite E1 in E1'. injection E1' as <-.
  rewrite adaptAggressiveness_spec in E3. injection E3 as <-.
  destruct (no_turn_in_policy ad col p w1 w2 E2) as (rest & C2 & Hrest).
  exists ad, rest. cbn [calls]. rewrite C2, C1, <- app_assoc.
  split; [exact Eh|]. split; [reflexivity|]. split; [exact Hrest|].
  unfold turnFor, Num.gtb, Num.ltb.
  split; [|split; [|split]].
  - intros r -> Hr. destruct (Rlt_dec 0.1 r); [eauto|lra].
  - intros r -> Hr. destruct (Rlt_dec 0.1 r); [lra|].
    destruct (Rlt_dec r (-0.1)); [eauto|lra].
  - intros r -> Hr. destruct (Rlt_dec 0.1 r); [lra|].
    destruct (Rlt_dec r (-0.1)); [lra|reflexivity].
  - intros ->. reflexivity.
Qed.

(** X2. A decision pass draws at most three values of [Math.random], and
    none at all in the braking branch (a collision flagged, or a heading
    error not below 0.8 in magnitude). *)
Theorem makeDecisions_draws fuel p (w w' : World H) :
  makeDecisions Math_atan2 Math_random fuel p w = inr (tt, w') ->
  (draws w <= draws w' <= draws w + 3)%nat
  /\ exists ad,
      headingError Math_atan2 fuel (this w) = inr ad
      /\ ((negb (hasCollisionAhead (checkSensors (this w)))
           && Num.ltb (Num.abs ad) (Fin 0.8))%bool = false ->
          draws w' = draws w).
Proof.
  intros E. apply makeDecisions_blocks in E.
  destruct E as (ad & w1 & w2 & Eh & E1 & E2 & E3).
  set (col := hasCollisionAhead (checkSensors (this w))) in *.
  destruct (steer_exact ad col w) as (w1' & E1' & _ & D1).
  rewrite E1 in E1'. injection E1' as <-.
  rewrite adaptAggressiveness_spec in E3. injection E3 as <-.
  destruct (throttlePolicy_draws Math_random ad col p w1 w2 E2) as (D2 & D2').
  unfold drawsUpTo in D2. cbn [draws]. split; [lia|].
  exists ad. split; [exact Eh|]. intros Henv. rewrite (D2' Henv). exact D1.
Qed.

(** X3. With a NaN heading (and a non-empty racing line) a decision pass
    returns for every loop bound, does not steer, and only brakes: the
    calls it adds are [brake] and [deactivateBoost], the drift flag ends
    false and no random value is drawn. *)
Theorem makeDecisions_nan_heading fuel p (w : World H) :
  Car.angle (car (this w)) = NaN ->
  racingLine (this w) <> [] ->
  exists w',
    makeDecisions Math_atan2 Math_random fuel p w = inr (tt, w')
    /\ headingError Math_atan2 fuel (this w) = inr NaN
    /\ calls w' =
       calls w ++ [CBrake (reactionTime (this w)); CDeactivateBoost]
    /\ Car.drifting (car (this w')) = false
    /\ draws w' = draws w.
Proof.
  intros Ha Hline.
  assert (Eh : headingError Math_atan2 fuel (this w) = inr NaN).
  { unfold headingError.
    destruct (getTargetRacingPoint_defined _ Hline) as [pt ->].
    cbn [defined exc_bind]. rewrite Ha.
    apply HeadingError.angleDiffOf_nan.
    destruct (Math_atan2 _ _); reflexivity. }
  set (col := hasCollisionAhead (checkSensors (this w))).
  destruct (steer_exact NaN col w) as (w1 & E1 & C1 & D1).
  assert (Epol : throttlePolicy Math_random NaN col p w1
                 = (bind (read (@reactionTime H)) (fun rt =>
                    bind (brake rt) (fun _ =>
                    bind deactivateBoost (fun _ => set_drifting false)))) w1).
  { unfold throttlePolicy. cbn [Num.abs Num.ltb]. rewrite andb_false_r.
    reflexivity. }
  destruct (brake_branch w1) as (w2 & E2 & C2 & Hcar & D2).
  rewrite <- Epol in E2.
  destruct (onlyCar_fields w w1) as (Hrt & _).
  { eapply steer_onlyCar; eauto. }
  eexists. split.
  { eapply makeDecisions_compose; eauto. apply adaptAggressiveness_spec. }
  split; [exact Eh|]. cbn [calls this car set_aggressiveness draws].
  rewrite C2, C1, Hrt, Hcar, D2, D1.
  unfold turnFor. cbn [Num.gtb Num.ltb]. rewrite app_nil_r. auto.
Qed.

End PassTheorems.

(** ** Edge cases of the pass and of update *)

Section EdgeCases.
Context {H : Type} {base : CarBase H}.
Variable Math_atan2 : number -> number -> number.
Variable Math_random : nat -> number.

Local Open Scope R_scope.

Lemma makeDecisions_aborts fuel p (w : World H) e :
  headingError Math_atan2 fuel (this w) = inl e ->
  makeDecisions Math_atan2 Math_random fuel p w = inl e.
Proof.
  intros Eh. unfold makeDecisions, bind at 1, read. cbn beta iota.
  unfold bind at 1, lift. cbn [this]. rewrite Eh. reflexivity.
Qed.

(** X4. With an infinite heading, when the bearing [Math.atan2] returns
    for the target this pass selects is a finite number, the
    normalization loops never end: the decision pass exhausts every loop
    bound, that is, it does not return. *)
Theorem makeDecisions_infinite_heading p (w : World H)
    (racingTarget : Point.t) :
  Car.angle (car (this w)) = PInf \/ Car.angle (car (this w)) = NInf ->
  getTargetRacingPoint (this w) = Some racingTarget ->
  Num.is_finite
    (Math_atan2
       (Num.sub (Point.x racingTarget) (Car.x (car (this w))))
       (Num.neg (Num.sub (Point.y racingTarget) (Car.y (car (this w)))))) ->
  forall fuel,
    makeDecisions Math_atan2 Math_random fuel p w = inl OutOfFuel.
Proof.
  intros Ha Et Hat fuel. apply makeDecisions_aborts.
  unfold headingError. rewrite Et.
  cbn [defined exc_bind]. unfold angleDiffOf.
  destruct (Math_atan2 _ _) as [b| | |]; try contradiction.
  destruct Ha as [-> | ->]; cbn [Num.sub Num.neg Num.add].
  - assert (E : whileAbove fuel NInf = inr NInf) by (destruct fuel; reflexivity).
    rewrite E. cbn [exc_bind]. apply HeadingError.whileBelow_infinite.
  - rewrite HeadingError.whileAbove_infinite. reflexivity.
Qed.

(** X5. After a call of [update] with an opponent, on finite timer,
    elapsed time and reaction time, the timer is 0 (a pass ran) or the
    old timer plus the elapsed time and still below the reaction time
    (no pass ran); with a positive reaction time it is always below the
    reaction time. *)
Theorem update_timer_below_reaction fuel (l t rt : R) p (w w' : World H) :
  lastDecision (this w) = Fin l ->
  reactionTime (this w) = Fin rt ->
  update Math_atan2 Math_random fuel (Fin t) (Some p) w = inr (tt, w') ->
  (rt <= l + t -> lastDecision (this w') = Fin 0)
  /\ (l + t < rt -> lastDecision (this w') = Fin (l + t))
  /\ (0 < rt -> exists s, lastDecision (this w') = Fin s /\ s < rt).
Proof.
  intros El Er E.
  assert (Hdue : passDue (Fin t) (Some p) w
                 = if Rle_dec rt (l + t) then Some p else None).
  { unfold passDue. rewrite El, Er. cbn [Num.add Num.geb Num.leb].
    destruct (Rle_dec rt (l + t)); reflexivity. }
  assert (Hcases :
    (rt <= l + t -> lastDecision (this w') = Fin 0)
    /\ (l + t < rt -> lastDecision (this w') = Fin (l + t))).
  { apply update_blocks in E. destruct E as (wd & d & Hwd & _ & ->).
    assert (Hl : forall wd' : World H,
               lastDecision (this (if Num.ltb d (Fin 50)
                                   then advanced (moved (Fin t) wd')
                                   else moved (Fin t) wd'))
               = lastDecision (this wd')).
    { intros wd'. destruct (Num.ltb d (Fin 50)); unfold advanced, moved; cbn;
        try destruct (Car.targetCheckpoint _); destruct wd' as [[] ? ?];
        reflexivity. }
    rewrite Hl. rewrite Hdue in Hwd.
    destruct (Rle_dec rt (l + t)) as [Hle|Hlt].
    - destruct Hwd as [[Hn _]|(p' & _ & Em)]; [discriminate|].
      apply makeDecisions_frame in Em. destruct Em as (_ & -> & _).
      split; [reflexivity|]. intros ?. lra.
    - destruct Hwd as [[_ ->]|(p' & Hs & _)]; [|discriminate].
      split; [intros ?; lra|]. intros _. unfold ticked. cbn.
      rewrite El. reflexivity. }
  destruct Hcases as [H1 H2]. split; [exact H1|]. split; [exact H2|].
  intros Hrt. destruct (Rle_dec rt (l + t)) as [Hle|Hlt].
  - exists 0. split; [apply H1; exact Hle|exact Hrt].
  - exists (l + t). split; [apply H2; lra|lra].
Qed.

(** X6. On a track without checkpoints the constructor still returns,
    with an empty racing line and cursor 0, and every later call of
    [update] throws a TypeError, whatever its arguments. *)
Theorem update_on_empty_track
    x y width height color angle tr difficulty :
  BaseKeepsCursor ->
  Track.checkpoints tr = [] ->
  exists a,
    @constructor H base x y width height color angle tr difficulty = inr a
    /\ racingLine a = []
    /\ Car.targetCheckpoint (car a) = Some 0%Z
    /\ forall fuel dt playerCar log n,
        update Math_atan2 Math_random fuel dt playerCar (mkWorld a log n)
        = inl TypeError.
Proof.
  intros Hbase Hcps.
  destruct (constructor_returns x y width height color angle tr difficulty)
    as (line & El & E).
  assert (Hline : line = []).
  { unfold calculateRacingLine in El. rewrite Hcps in El. cbn in El.
    congruence. }
  subst line. eexists. split; [exact E|].
  split; [reflexivity|]. split; [reflexivity|].
  intros fuel dt playerCar log n. rewrite update_unfold.
  assert (Hadv : forall wd : World H,
             track (this wd) = tr ->
             Car.targetCheckpoint (car (this wd)) = Some 0%Z ->
             advanceCheckpoint (moved dt wd) = inl TypeError).
  { intros wd Ht Hc. rewrite advanceCheckpoint_spec.
    unfold distanceToCheckpoint, moved. cbn [this car set_car track].
    rewrite (update_cursor Hbase), Hc.
    destruct (this wd); cbn in *. rewrite Ht, Hcps. reflexivity. }
  destruct (passDue dt playerCar _) as [p|].
  - rewrite makeDecisions_aborts with (e := TypeError); [reflexivity|].
    unfold headingError, getTargetRacingPoint. cbn. reflexivity.
  - apply Hadv; reflexivity.
Qed.

End EdgeCases.

(** ** Race position and the central sensor *)

Section Position.
Context {H : Type} {base : CarBase H}.
Variable Math_atan2 : number -> number -> number.
Variable Math_random : nat -> number.

Local Open Scope R_scope.

Lemma ltb_asym (a b : number) :
  Num.ltb a b = true -> Num.ltb b a = false.
Proof.
  destruct a as [x| | |], b as [y| | |]; cbn; try congruence.
  destruct (Rlt_dec x y), (Rlt_dec y x); try congruence. lra.
Qed.

(** X7. No driver is ahead of itself, and of two drivers on the same
    track at most one is ahead of the other. *)
Theorem isAheadOf_asymmetric (a b : AICar H) :
  track a = track b ->
  isAheadOf a (car a) <> inr true
  /\ ~ (isAheadOf a (car b) = inr true /\ isAheadOf b (car a) = inr true).
Proof.
  intros Ht. split.
  - unfold isAheadOf, distanceToCheckpoint.
    destruct (Car.targetCheckpoint (car a)) as [i|]; [|discriminate].
    destruct (Z.gtb_spec i i); [lia|]. rewrite Z.eqb_refl.
    destruct (index _ i) as [c|]; cbn [defined exc_bind]; [|discriminate].
    intros E. injection E as E.
    pose proof (ltb_asym _ _ E). congruence.
  - intros [Ea Eb]. unfold isAheadOf, distanceToCheckpoint in Ea, Eb.
    rewrite <- Ht in Eb.
    destruct (Car.targetCheckpoint (car a)) as [i|]; [|discriminate].
    destruct (Car.targetCheckpoint (car b)) as [j|]; [|discriminate].
    destruct (Z.gtb_spec i j), (Z.gtb_spec j i); try lia; try discriminate.
    + destruct (Z.eqb_spec j i); [lia|discriminate].
    + destruct (Z.eqb_spec i j); [lia|discriminate].
    + destruct (Z.eqb_spec i j) as [->|]; [|discriminate].
      rewrite Z.eqb_refl in Eb.
      destruct (index _ j) as [c|]; cbn [defined exc_bind] in Ea, Eb;
        [|discriminate].
      injection Ea as Ea. injection Eb as Eb.
      pose proof (ltb_asym _ _ Ea). congruence.
Qed.

(** X8. [checkCollisionAhead] looks at the second reading only: it is
    false with fewer than two sensors, with the constructor's sensors it
    is true exactly when the end of the forward ray (range 100) is out of
    bounds, and whenever it is true the collision flag of the decision
    pass is true as well. *)
Theorem checkCollisionAhead_central (a : AICar H) :
  (checkCollisionAhead a = true ->
   hasCollisionAhead (checkSensors a) = true)
  /\ ((length (avoidanceSensors a) < 2)%nat -> checkCollisionAhead a = false)
  /\ (avoidanceSensors a = defaultSensors ->
      checkCollisionAhead a = rayOut a (Fin 0) (Fin 100)).
Proof.
  split; [|split].
  - unfold checkCollisionAhead, hasCollisionAhead.
    destruct (nth_error (checkSensors a) 1) as [r|] eqn:E; [|discriminate].
    intros Hr. apply existsb_exists. exists r.
    split; [eapply nth_error_In; eauto|].
    apply nth_error_In in E. unfold checkSensors in E.
    apply in_map_iff in E. destruct E as (s & <- & _).
    destruct (negb _); unfold Num.ltb in *.
    + destruct (Rlt_dec 1.0 0.8); [lra|discriminate].
    + destruct (Rlt_dec 0.5 1.0); [reflexivity|lra].
  - intros Hlen. unfold checkCollisionAhead.
    destruct (nth_error (checkSensors a) 1) eqn:E; [|reflexivity].
    assert (Hn : nth_error (checkSensors a) 1 <> None) by congruence.
    apply nth_error_Some in Hn. unfold checkSensors in Hn.
    rewrite length_map in Hn. lia.
  - intros Es. unfold checkCollisionAhead.
    rewrite (checkSensors_default a Es). cbn [nth_error].
    unfold reading. destruct (rayOut a (Fin 0) (Fin 100)); unfold Num.ltb.
    + destruct (Rlt_dec 0.5 0.8); [reflexivity|lra].
    + destruct (Rlt_dec 1.0 0.8); [lra|reflexivity].
Qed.

(** Over exact reals, [n] near passes in a row add [0.1 n], capped at 1. *)
Lemma near_passes_sum n (w w' : World H) (g : R) :
  aggressiveness (this w) = Fin g -> 0 <= g <= 1 ->
  nearPasses Math_atan2 Math_random n w w' ->
  aggressiveness (this w') = Fin (Rmin 1 (g + 0.1 * INR n)).
Proof.
  intros Eg Hg Hn.
  induction Hn as [w|n w w1 w2 fuel p x y px py _ IH E Ex Ey Epx Epy Hnear].
  - rewrite Eg. f_equal. simpl INR. unfold Rmin.
    destruct (Rle_dec 1 (g + 0.1 * 0)); lra.
  - specialize (IH Eg).
    destruct (makeDecisions_aggressiveness _ _ _ _ _ _ E) as (_ & Ea).
    rewrite (distanceToPlayer_fin _ _ x y px py Ex Ey Epx Epy) in Ea.
    apply NumFacts.ltb_fin in Hnear.
    rewrite Hnear, IH in Ea. rewrite Ea, S_INR.
    pose proof (pos_INR n) as Hpos.
    unfold Num.min, Num.add, Num.ltb, Rmin.
    destruct (Rle_dec 1 (g + 0.1 * INR n));
      destruct (Rle_dec 1 (g + 0.1 * (INR n + 1)));
      match goal with
      | |- context [Rlt_dec ?u ?v] => destruct (Rlt_dec u v)
      end; f_equal; lra.
Qed.

(** X9. Over [n] decision passes in a row that each end with the
    opponent at a straight-line distance below 100, an aggressiveness
    [g] in [0, 1] does not decrease and does not exceed 1; it has grown
    after the first such pass unless it was 1 already, and from the
    eleventh pass on it is exactly 1.  (Eleven, not ten: on binary64
    numbers ten sums of 0.1 stop one step short of 1, see
    [DoublesFacts.ten_increments_fall_short].) *)
Theorem aggressiveness_after_near_passes n (w w' : World H) (g : R) :
  aggressiveness (this w) = Fin g -> 0 <= g <= 1 ->
  nearPasses Math_atan2 Math_random n w w' ->
  exists g',
    aggressiveness (this w') = Fin g'
    /\ g <= g' <= 1
    /\ ((0 < n)%nat -> g < 1 -> g < g')
    /\ ((11 <= n)%nat -> g' = 1).
Proof.
  intros Eg Hg Hn.
  exists (Rmin 1 (g + 0.1 * INR n)).
  split; [exact (near_passes_sum n w w' g Eg Hg Hn)|].
  pose proof (pos_INR n) as Hpos.
  unfold Rmin. destruct (Rle_dec 1 (g + 0.1 * INR n)) as [Hcap|Hcap].
  - split; [lra|]. split; [intros _ Hlt; exact Hlt|reflexivity].
  - split; [lra|]. split.
    + intros Hn0 _.
      assert (1 <= INR n).
      { replace 1 with (INR 1) by reflexivity. apply le_INR. lia. }
      lra.
    + intros Hten. exfalso.
      assert (11 <= INR n).
      { replace 11 with (INR 11) by (simpl; lra). apply le_INR. exact Hten. }
      lra.
Qed.

End Position.

(** ** The steering target (lines 75-95) *)

Section SteeringTarget.
Context {H : Type} {base : CarBase H}.

Local Open Scope R_scope.

Lemma distanceTo_finite (p : Point.t) (x0 y0 : R) :
  finitePoint p ->
  exists d, distanceTo p (Fin x0) (Fin y0) = Fin d /\ 0 <= d.
Proof.
  intros Hf.
  destruct p as [[px| | |] [py| | |]]; unfold finitePoint in Hf; cbn in Hf;
    destruct Hf; try contradiction.
  unfold distanceTo. cbn [Point.x Point.y Num.sub Num.neg Num.add Num.mul].
  assert (Hsq : forall u : R, 0 <= u * u) by (intros; nra).
  pose proof (Hsq (px + - x0)). pose proof (Hsq (py + - y0)).
  eexists. split; [apply NumFacts.sqrt_fin; lra|apply sqrt_pos].
Qed.

(** One iteration of the search loop. *)
Lemma closestSoFar_step (x0 y0 : R) (seen : list Point.t) point cd ci e :
  closestSoFar x0 y0 seen cd ci ->
  distanceTo point (Fin x0) (Fin y0) = Fin e ->
  closestSoFar x0 y0 (seen ++ [point])
    (if Num.ltb (Fin e) cd then Fin e else cd)
    (if Num.ltb (Fin e) cd then length seen else ci).
Proof.
  intros Hinv Ee.
  destruct Hinv as [(-> & -> & ->)|(p & d & Hn & Hd & -> & Hall)].
  - cbn [Num.ltb length app]. right. exists point, e. cbn.
    split; [reflexivity|]. split; [exact Ee|]. split; [reflexivity|].
    intros [|[|j]] q Hq; cbn in Hq; try discriminate.
    injection Hq as <-. exists e. split; [exact Ee|]. split; [lra|lia].
  - unfold Num.ltb. destruct (Rlt_dec e d) as [Hlt|Hge]; right.
    + exists point, e.
      split; [rewrite nth_error_app2, Nat.sub_diag by lia; reflexivity|].
      split; [exact Ee|]. split; [reflexivity|].
      intros j q Hq.
      destruct (Nat.lt_ge_cases j (length seen)) as [Hj|Hj].
      * rewrite nth_error_app1 in Hq by exact Hj.
        destruct (Hall j q Hq) as (e' & Ee' & Hle & _).
        exists e'. split; [exact Ee'|]. split; [lra|intros _; lra].
      * rewrite nth_error_app2 in Hq by exact Hj.
        destruct (j - length seen)%nat as [|k] eqn:Ek; cbn in Hq;
          [|destruct k; discriminate].
        injection Hq as <-. exists e. split; [exact Ee|].
        split; [lra|intros ?; lia].
    + exists p, d.
      assert (Hci : (ci < length seen)%nat).
      { apply nth_error_Some. congruence. }
      split; [rewrite nth_error_app1 by exact Hci; exact Hn|].
      split; [exact Hd|]. split; [reflexivity|].
      intros j q Hq.
      destruct (Nat.lt_ge_cases j (length seen)) as [Hj|Hj].
      * rewrite nth_error_app1 in Hq by exact Hj. apply (Hall j q Hq).
      * rewrite nth_error_app2 in Hq by exact Hj.
        destruct (j - length seen)%nat as [|k] eqn:Ek; cbn in Hq;
          [|destruct k; discriminate].
        injection Hq as <-. exists e. split; [exact Ee|].
        split; [lra|intros ?; lia].
Qed.

Lemma closestLoop_invariant (x0 y0 : R) (rest : list Point.t) :
  forall seen cd ci,
    Forall finitePoint rest ->
    closestSoFar x0 y0 seen cd ci ->
    exists cd',
      closestSoFar x0 y0 (seen ++ rest) cd'
        (closestLoop (Fin x0) (Fin y0) rest (length seen) cd ci).
Proof.
  induction rest as [|point rest IH]; intros seen cd ci Hfin Hinv.
  - exists cd. rewrite app_nil_r. exact Hinv.
  - inversion Hfin as [|? ? Hp Hrest]; subst.
    destruct (distanceTo_finite point x0 y0 Hp) as (e & Ee & He).
    pose proof (closestSoFar_step x0 y0 seen point cd ci e Hinv Ee) as Hstep.
    cbn [closestLoop].
    change (Num.sqrt _) with (distanceTo point (Fin x0) (Fin y0)).
    rewrite Ee.
    replace (seen ++ point :: rest) with ((seen ++ [point]) ++ rest)
      by (rewrite <- app_assoc; reflexivity).
    replace (S (length seen)) with (length (seen ++ [point]))
      by (rewrite length_app; cbn; lia).
    destruct (Num.ltb (Fin e) cd); apply IH; assumption.
Qed.

(** X10. With a finite car position and a non-empty racing line of
    finite waypoints, the search of [getTargetRacingPoint] finds the first
    waypoint at the least distance from the car, and the target returned
    is the waypoint ten places further along the line, wrapping around. *)
Theorem getTargetRacingPoint_lookahead (a : AICar H) (x0 y0 : R) :
  Car.x (car a) = Fin x0 -> Car.y (car a) = Fin y0 ->
  Forall finitePoint (racingLine a) -> racingLine a <> [] ->
  exists closestIndex closest d target,
    nth_error (racingLine a) closestIndex = Some closest
    /\ distanceTo closest (Fin x0) (Fin y0) = Fin d
    /\ (forall j q, nth_error (racingLine a) j = Some q ->
         exists e, distanceTo q (Fin x0) (Fin y0) = Fin e
                   /\ d <= e /\ ((j < closestIndex)%nat -> d < e))
    /\ getTargetRacingPoint a = Some target
    /\ nth_error (racingLine a)
         ((closestIndex + 10) mod length (racingLine a)) = Some target.
Proof.
  intros Ex Ey Hfin Hne.
  destruct (closestLoop_invariant x0 y0 (racingLine a) [] PInf 0%nat Hfin)
    as (cd & Hinv).
  { left. auto. }
  cbn [app length] in Hinv.
  destruct Hinv as [(Hnil & _)|(p & d & Hn & Hd & _ & Hall)];
    [contradiction|].
  destruct (getTargetRacingPoint_defined a Hne) as [target Et].
  exists (closestLoop (Fin x0) (Fin y0) (racingLine a) 0 PInf 0), p, d, target.
  split; [exact Hn|]. split; [exact Hd|]. split; [exact Hall|].
  split; [exact Et|].
  unfold getTargetRacingPoint in Et. rewrite Ex, Ey in Et. exact Et.
Qed.

End SteeringTarget.

(** ** The shape of the racing line (lines 43-73) *)

Section RacingLineShape.

Local Open Scope R_scope.








End RacingLineShape.

(** ** The parameters the constructor derives (lines 28-40) *)

Section DerivedParameters.
Context {H : Type} {base : CarBase H}.

Local Open Scope R_scope.

(** X13. For a difficulty [r] in [0, 1] the constructor sets the maximum
    velocity to [280 + 40 r], the reaction time to [0.2 - 0.1 r] and the
    preferred speed to [220 + 80 r]: the reaction time lies in
    [0.1, 0.2], so it is positive, the preferred speed lies in
    [220, 300] and stays below the maximum velocity, which lies in
    [280, 320]; the timer starts at 0. *)
Theorem constructor_parameters x y width height color angle tr (r : R) :
  0 <= r <= 1 ->
  exists a mv rt ps,
    @constructor H base x y width height color angle tr (Some (Fin r)) = inr a
    /\ Car.maxVelocity (car a) = Fin mv /\ mv = 280 + r * 40
    /\ reactionTime a = Fin rt /\ rt = 0.2 - r * 0.1
    /\ preferredSpeed a = Fin ps /\ ps = 220 + r * 80
    /\ 280 <= mv <= 320 /\ 0.1 <= rt <= 0.2 /\ 220 <= ps <= 300
    /\ ps < mv
    /\ lastDecision a = Fin 0.
Proof.
  intros Hr.
  destruct (constructor_returns x y width height color angle tr (Some (Fin r)))
    as (line & _ & E).
  eexists. exists (280 + r * 40), (0.2 - r * 0.1), (220 + r * 80).
  split; [exact E|]. cbn.
  repeat split; try reflexivity; try lra.
Qed.

End DerivedParameters.

(** ** GameCanvas: boost meter, lap times, camera cycle *)

Module GameCanvasFacts.
Import GameCanvas.
Local Open Scope R_scope.

Lemma drainBoost_boost dt prev (b : R) :
  boost prev = Fin b ->
  boost (drainBoost dt prev) = Fin (Rmax 0 (b - 1)).
Proof.
  intros E. unfold drainBoost. cbn [boost]. rewrite E.
  unfold Math_max, Num.sub, Num.neg, Num.add, Num.ltb, Rmax.
  match goal with
  | |- context [Rlt_dec ?u ?v] => destruct (Rlt_dec u v)
  end; destruct (Rle_dec 0 (b - 1));
    cbv iota; first [apply f_equal; lra | exfalso; lra].
Qed.

Lemma refillBoost_boost prev (b : R) :
  boost prev = Fin b ->
  boost (refillBoost prev) = Fin (Rmin 100 (b + 0.2)).
Proof.
  intros E. unfold refillBoost. cbn [boost]. rewrite E.
  unfold Num.min, Num.add, Num.ltb, Rmin.
  destruct (Rlt_dec 100 (b + 0.2)), (Rle_dec 100 (b + 0.2));
    cbv iota; first [apply f_equal; lra | exfalso; lra].
Qed.

(** X14. The boost meter never leaves [0, 100]: draining lowers it by 1
    but not below 0, refilling raises it by 0.2 but not above 100, and
    whatever updaters the ticks queue, in whatever order and from
    whatever stale state their guards were evaluated, a meter in
    [0, 100] stays in [0, 100]. *)
Theorem boost_meter_bounds (prev : GameStats) (b : R)
    (updaters : list (GameStats -> GameStats)) :
  boost prev = Fin b -> 0 <= b <= 100 ->
  Forall (fun u => exists spaceHeld seen deltaTime,
                     u = boostUpdater spaceHeld seen deltaTime) updaters ->
  (forall dt, boost (drainBoost dt prev) = Fin (Rmax 0 (b - 1)))
  /\ boost (refillBoost prev) = Fin (Rmin 100 (b + 0.2))
  /\ exists b',
      boost (fold_left (fun st u => u st) updaters prev) = Fin b'
      /\ 0 <= b' <= 100.
Proof.
  intros Eb Hb Hus.
  split; [intros dt; apply drainBoost_boost; exact Eb|].
  split; [apply refillBoost_boost; exact Eb|].
  revert prev b Eb Hb.
  induction Hus as [|u us (sp & seen & dt & ->) _ IH]; intros prev b Eb Hb.
  - exists b. auto.
  - cbn [fold_left]. unfold boostUpdater.
    destruct (sp && Num.gtb (boost seen) (Fin 0))%bool.
    + apply (IH _ (Rmax 0 (b - 1))); [apply drainBoost_boost; exact Eb|].
      unfold Rmax. destruct (Rle_dec 0 (b - 1)); lra.
    + apply (IH _ (Rmin 100 (b + 0.2))); [apply refillBoost_boost; exact Eb|].
      unfold Rmin. destruct (Rle_dec 100 (b + 0.2)); lra.
Qed.

(** X15. The lap updater keeps the smaller of the lap time and the best
    time so far (the lap time itself on the first lap, when the best time
    is Infinity), restarts the lap clock, and takes the lap number from
    the state the loop closed over: applying it twice from the same state
    is the same as applying it once. *)
Theorem completeLap_best_time (seen prev : GameStats) :
  completeLap seen (completeLap seen prev) = completeLap seen prev
  /\ currentLapTime (completeLap seen prev) = Fin 0
  /\ lap (completeLap seen prev) = Num.add (lap seen) (Fin 1)
  /\ forall t, currentLapTime seen = Fin t ->
       (bestLapTime prev = PInf ->
        bestLapTime (completeLap seen prev) = Fin t)
       /\ (forall b, bestLapTime prev = Fin b ->
           bestLapTime (completeLap seen prev) = Fin (Rmin t b)).
Proof.
  split; [|split; [reflexivity|split; [reflexivity|]]].
  - unfold completeLap. cbn.
    destruct (Num.ltb (currentLapTime seen) (bestLapTime prev)) eqn:E.
    + assert (E' : Num.ltb (currentLapTime seen) (currentLapTime seen) = false).
      { destruct (currentLapTime seen) as [t| | |]; cbn; auto.
        destruct (Rlt_dec t t); auto. lra. }
      rewrite E'. reflexivity.
    + rewrite E. reflexivity.
  - intros t Et. unfold completeLap. cbn [bestLapTime]. rewrite Et. split.
    + intros ->. reflexivity.
    + intros b ->. unfold Num.ltb, Rmin.
      destruct (Rlt_dec t b), (Rle_dec t b);
        cbv iota; first [apply f_equal; lra | exfalso; lra].
Qed.

Lemma indexOfFrom_absent (l : list string) (s : string) (i : Z) :
  ~ In s l -> indexOfFrom l s i = (-1)%Z.
Proof.
  revert i. induction l as [|x l IH]; intros i Hn; [reflexivity|].
  cbn [indexOfFrom].
  destruct (String.eqb_spec x s) as [->|_].
  - exfalso. apply Hn. left. reflexivity.
  - apply IH. intros Hin. apply Hn. right. exact Hin.
Qed.

(** X16. The camera key cycles through the five modes: the next mode is
    never undefined, an unknown mode is followed by "follow", and from
    each of the five modes five presses, and no fewer, lead back to it. *)
Theorem camera_cycle :
  (forall m, exists m', nextMode m = Some m' /\ In m' modes)
  /\ (forall m, ~ In m modes -> nextMode m = Some "follow"%string)
  /\ (forall m, In m modes ->
        pressCamera 5 m = Some m
        /\ forall k, (0 < k < 5)%nat -> pressCamera k m <> Some m).
Proof.
  assert (Habsent : forall m, ~ In m modes ->
                               nextMode m = Some "follow"%string).
  { intros m Hn. unfold nextMode, indexOf.
    rewrite (indexOfFrom_absent _ _ _ Hn). reflexivity. }
  assert (Hknown : forall m, In m modes ->
            exists m', nextMode m = Some m' /\ In m' modes).
  { intros m Hin. unfold modes in Hin. cbn [In] in Hin.
    destruct Hin as [<-|[<-|[<-|[<-|[<-|[]]]]]];
      eexists; (split; [vm_compute; reflexivity|]); cbn; auto 10. }
  split; [|split].
  - intros m. destruct (in_dec string_dec m modes) as [Hin|Hn].
    + apply Hknown; exact Hin.
    + exists "follow"%string. split; [apply Habsent; exact Hn|].
      cbn. auto.
  - exact Habsent.
  - intros m Hin. unfold modes in Hin. cbn [In] in Hin.
    destruct Hin as [<-|[<-|[<-|[<-|[<-|[]]]]]];
      (split; [vm_compute; reflexivity|]);
      intros k Hk;
      (destruct k as [|[|[|[|[|k]]]]]; try lia);
      vm_compute; discriminate.
Qed.

End GameCanvasFacts.

(** ** Boost rolls and the motion step *)

Section BoostAndMotion.
Context {H : Type} {base : CarBase H}.
Variable Math_atan2 : number -> number -> number.
Variable Math_random : nat -> number.

Local Open Scope R_scope.

(** The boost decision with every draw at 0.2 or more. *)
Lemma decideBoost_declines p (w w' : World H) (g : R) :
  (forall n, exists r, Math_random n = Fin r /\ 0.2 <= r) ->
  aggressiveness (this w) = Fin g -> g <= 1 ->
  decideBoost Math_random p w = inr (tt, w') ->
  calls w' = calls w ++ [CDeactivateBoost].
Proof.
  intros Hrand Eg Hg E. unfold decideBoost in E.
  apply bind_inr in E. destruct E as (ahead & w1 & E1 & E).
  apply bind_inr in E. destruct E as (should & w2 & E2 & E).
  apply bind_inr in E. destruct E as (roll & w3 & E3 & E).
  assert (K1 : keeps (fun w : World H => (this w, calls w)) w w1).
  { revert E1. generalize w ahead w1.
    change (preserves (keeps (fun w : World H => (this w, calls w)))
              (bind (read (fun a => a)) (fun a => lift (isAheadOf a p)))).
    body. }
  assert (K2 : keeps (fun w : World H => (this w, calls w)) w1 w2).
  { revert E2. generalize w1 should w2.
    match goal with
    | |- forall w a w', ?m w = inr (a, w') -> _ =>
        change (preserves (keeps (fun w : World H => (this w, calls w))) m)
    end. body. }
  unfold keeps in K1, K2. injection K1 as T1 C1. injection K2 as T2 C2.
  assert (Eroll : roll = false /\ calls w3 = calls w2).
  { unfold andThen, bind, ret, random, read in E3. cbn beta iota in E3.
    destruct should.
    - injection E3 as <- <-. cbn [this calls]. split; [|reflexivity].
      rewrite T2, T1, Eg. destruct (Hrand (draws w2)) as (r & -> & Hr).
      cbn [Num.mul]. apply NumFacts.ltb_fin_false. lra.
    - injection E3 as <- <-. auto. }
  destruct Eroll as [-> C3].
  unfold deactivateBoost, invoke in E. injection E as <-. cbn [calls].
  rewrite C3, C2, C1. reflexivity.
Qed.

(** X17. When every value of [Math.random] is 0.2 or more and
    aggressiveness is at most 1, a decision pass never activates the
    boost: [activateBoost] is not among the calls it adds. *)
Theorem makeDecisions_no_boost fuel p (w w' : World H) (g : R) :
  (forall n, exists r, Math_random n = Fin r /\ 0.2 <= r) ->
  aggressiveness (this w) = Fin g -> g <= 1 ->
  makeDecisions Math_atan2 Math_random fuel p w = inr (tt, w') ->
  exists added,
    calls w' = calls w ++ added /\ ~ In CActivateBoost added.
Proof.
  intros Hrand Eg Hg E. apply makeDecisions_blocks in E.
  destruct E as (ad & w1 & w2 & _ & E1 & E2 & E3).
  set (col := hasCollisionAhead (checkSensors (this w))) in *.
  destruct (steer_exact ad col w) as (w1' & E1' & C1 & _).
  rewrite E1 in E1'. injection E1' as <-.
  rewrite adaptAggressiveness_spec in E3. injection E3 as <-.
  cbn [calls].
  assert (O1 : onlyCar w w1) by (eapply steer_onlyCar; eauto).
  assert (Hturn : ~ In CActivateBoost
                     (turnFor ad col (reactionTime (this w)))).
  { unfold turnFor. destruct (Num.gtb ad _); [|destruct (Num.ltb ad _)];
      cbn; intuition discriminate. }
  unfold throttlePolicy in E2.
  destruct (negb col && _)%bool.
  - apply bind_inr in E2. destruct E2 as ([] & wa & Ea & E2).
    apply bind_inr in E2. destruct E2 as ([] & wb & Eb & E2).
    destruct (decideDrift_calls Math_random ad w1) as (wa' & probe & Ea' & Ca & Hp).
    rewrite Ea in Ea'. injection Ea' as <-.
    destruct (throttle_calls wb) as (wb' & _ & _).
    destruct (throttle_calls wa) as (wb'' & Eb' & Cb).
    rewrite Eb in Eb'. injection Eb' as <-.
    assert (O : onlyCar w wb).
    { eapply steps_trans; [exact O1|].
      eapply steps_trans;
        [eapply decideDrift_onlyCar; eauto|eapply throttle_onlyCar; eauto]. }
    destruct (onlyCar_fields _ _ O) as (_ & _ & Ha & _).
    rewrite <- Ha in Eg.
    rewrite (decideBoost_declines p wb w2 g Hrand Eg Hg E2), Cb, Ca, C1.
    eexists. rewrite <- !app_assoc. split; [reflexivity|].
    intros Hin.
    repeat (apply in_app_or in Hin; destruct Hin as [Hin|Hin]).
    + exact (Hturn Hin).
    + destruct Hp as [->|[? ->]]; cbn in Hin; intuition discriminate.
    + cbn in Hin. destruct (Num.ltb _ _); intuition discriminate.
    + cbn in Hin. intuition discriminate.
  - destruct (brake_branch w1) as (w2' & E2' & C2 & _).
    rewrite E2 in E2'. injection E2' as <-.
    rewrite C2, C1. eexists. rewrite <- app_assoc. split; [reflexivity|].
    intros Hin. apply in_app_or in Hin. destruct Hin as [Hin|Hin].
    + exact (Hturn Hin).
    + cbn in Hin. intuition discriminate.
Qed.

Lemma pass_never_moves fuel p (w w' : World H) :
  makeDecisions Math_atan2 Math_random fuel p w = inr (tt, w') ->
  exists added,
    calls w' = calls w ++ added /\ forall dt, ~ In (CUpdate dt) added.
Proof.
  intros E. apply makeDecisions_blocks in E.
  destruct E as (ad & w1 & w2 & _ & E1 & E2 & E3).
  set (col := hasCollisionAhead (checkSensors (this w))) in *.
  destruct (steer_exact ad col w) as (w1' & E1' & C1 & _).
  rewrite E1 in E1'. injection E1' as <-.
  rewrite adaptAggressiveness_spec in E3. injection E3 as <-.
  cbn [calls].
  pose proof (throttlePolicy_calls Math_random ad col p w1 w2 E2) as P.
  assert (Hturn : forall dt, ~ In (CUpdate dt)
                     (turnFor ad col (reactionTime (this w)))).
  { intros dt. unfold turnFor.
    destruct (Num.gtb ad _); [|destruct (Num.ltb ad _)];
      cbn; intuition discriminate. }
  destruct (negb col && _)%bool.
  - destruct P as (probe & v & boost & C & Hp & Hb).
    rewrite C, C1. eexists. rewrite <- !app_assoc. split; [reflexivity|].
    intros dt Hin.
    repeat (apply in_app_or in Hin; destruct Hin as [Hin|Hin]).
    + exact (Hturn dt Hin).
    + destruct Hp as [->|[? ->]]; cbn in Hin; intuition discriminate.
    + cbn in Hin. destruct (Num.ltb v _), Hb as [->| ->];
        intuition discriminate.
  - destruct P as (C & _). rewrite C, C1. eexists.
    rewrite <- app_assoc. split; [reflexivity|].
    intros dt Hin. apply in_app_or in Hin. destruct Hin as [Hin|Hin].
    + exact (Hturn dt Hin).
    + cbn in Hin. intuition discriminate.
Qed.

(** X18. Every call of [update] that returns calls [Car.update] exactly
    once, with its own elapsed time, and as the last call it makes on the
    base class: whatever the decision pass called comes before and
    contains no motion step; without a pass it is the only call. *)
Theorem update_moves_once fuel dt playerCar (w w' : World H) :
  update Math_atan2 Math_random fuel dt playerCar w = inr (tt, w') ->
  exists before,
    calls w' = calls w ++ before ++ [CUpdate dt]
    /\ (forall dt', ~ In (CUpdate dt') before)
    /\ (passDue dt playerCar w = None -> before = []).
Proof.
  intros E. apply update_blocks in E.
  destruct E as (wd & d & Hwd & _ & ->).
  assert (Hc : forall wm : World H,
             calls (if Num.ltb d (Fin 50) then advanced (moved dt wm)
                    else moved dt wm)
             = calls wm ++ [CUpdate dt]).
  { intros wm. destruct (Num.ltb d (Fin 50)); unfold advanced, moved; cbn;
      try destruct (Car.targetCheckpoint _); reflexivity. }
  rewrite Hc.
  destruct Hwd as [[Hn ->]|(p & Hs & Em)].
  - exists []. cbn. repeat split; auto.
  - destruct (pass_never_moves _ _ _ _ Em) as (added & C & Hno).
    exists added. rewrite C. cbn [calls rearmed ticked].
    rewrite <- app_assoc. split; [reflexivity|]. split; [exact Hno|].
    intros Hn. congruence.
Qed.

End BoostAndMotion.

(** ** The further properties on concrete objects *)

Module MoreExamples.
Import Demo.
Local Open Scope R_scope.

Lemma first_pass :
  exists fuel w',
    makeDecisions atan2 random fuel player world = inr (tt, w').
Proof.
  destruct (makeDecisions_returns atan2 random player world
              Examples.plainCar_keeps_cursor Examples.atan2_bounded
              Examples.world_ready) as (fuel & Hf).
  exists fuel. apply Hf. lia.
Qed.

Lemma makeDecisions_turns_once_witness :
  exists fuel w' ad rest,
    makeDecisions atan2 random fuel player world = inr (tt, w')
    /\ headingError atan2 fuel (this world) = inr ad
    /\ calls w' =
       calls world
       ++ turnFor ad (hasCollisionAhead (checkSensors (this world)))
            (reactionTime (this world))
       ++ rest
    /\ forallb (fun c => negb (isTurnCall c)) rest = true.
Proof.
  destruct first_pass as (fuel & w' & E).
  destruct (makeDecisions_turns_once atan2 random fuel player world w' E)
    as (ad & rest & Eh & C & Hrest & _).
  exists fuel, w', ad, rest. repeat split; assumption.
Defined.

Lemma makeDecisions_draws_witness :
  exists fuel w',
    makeDecisions atan2 random fuel player world = inr (tt, w')
    /\ (draws world <= draws w' <= draws world + 3)%nat.
Proof.
  destruct first_pass as (fuel & w' & E).
  destruct (makeDecisions_draws atan2 random fuel player world w' E)
    as (Hd & _).
  exists fuel, w'. split; assumption.
Defined.

Lemma makeDecisions_nan_heading_witness :
  Car.angle (car (this (Cases.worldAt NaN))) = NaN
  /\ racingLine (this (Cases.worldAt NaN)) <> []
  /\ exists w',
      makeDecisions atan2 random 0 player (Cases.worldAt NaN) = inr (tt, w')
      /\ calls w' = [CBrake (Fin 0.115); CDeactivateBoost]
      /\ draws w' = 0%nat.
Proof.
  assert (Ha : Car.angle (car (this (Cases.worldAt NaN))) = NaN)
    by reflexivity.
  assert (Hl : racingLine (this (Cases.worldAt NaN)) <> [])
    by discriminate.
  split; [exact Ha|]. split; [exact Hl|].
  destruct (makeDecisions_nan_heading atan2 random 0 player
              (Cases.worldAt NaN) Ha Hl) as (w' & E & _ & C & _ & D).
  exists w'. split; [exact E|]. split; [exact C|exact D].
Defined.

Lemma atan2_of_numbers (a b : R) :
  Num.is_finite (Cases.atan2 (Fin a) (Fin b)).
Proof.
  unfold Cases.atan2.
  repeat match goal with
         | |- context [Rlt_dec ?u ?v] => destruct (Rlt_dec u v)
         end; exact I.
Qed.

Lemma makeDecisions_infinite_heading_witness :
  (Car.angle (car (this (Cases.worldAt PInf))) = PInf
   \/ Car.angle (car (this (Cases.worldAt PInf))) = NInf)
  /\ exists racingTarget,
      getTargetRacingPoint (this (Cases.worldAt PInf)) = Some racingTarget
      /\ Num.is_finite
           (Cases.atan2
              (Num.sub (Point.x racingTarget)
                 (Car.x (car (this (Cases.worldAt PInf)))))
              (Num.neg
                 (Num.sub (Point.y racingTarget)
                    (Car.y (car (this (Cases.worldAt PInf)))))))
      /\ makeDecisions Cases.atan2 random 1000 player (Cases.worldAt PInf)
         = inl OutOfFuel.
Proof.
  assert (Ha : Car.angle (car (this (Cases.worldAt PInf))) = PInf
               \/ Car.angle (car (this (Cases.worldAt PInf))) = NInf)
    by (left; reflexivity).
  split; [exact Ha|].
  destruct (getTargetRacingPoint_defined (this (Cases.worldAt PInf)))
    as [t Et]; [discriminate|].
  assert (Hat : Num.is_finite
                  (Cases.atan2
                     (Num.sub (Point.x t)
                        (Car.x (car (this (Cases.worldAt PInf)))))
                     (Num.neg
                        (Num.sub (Point.y t)
                           (Car.y (car (this (Cases.worldAt PInf)))))))).
  { pose proof Et as Hin. unfold getTargetRacingPoint in Hin.
    apply nth_error_In in Hin.
    cbn [Cases.worldAt this racingLine Cases.driverAt In] in Hin.
    destruct Hin as [<- | [<- | []]];
      cbn [Cases.worldAt this car Cases.driverAt Car.x Car.y Point.x Point.y
           Car.set_targetCheckpoint Car_new PlainCar.base
           Num.sub Num.neg Num.add];
      apply atan2_of_numbers. }
  exists t. split; [exact Et|]. split; [exact Hat|].
  exact (makeDecisions_infinite_heading Cases.atan2 random player
           (Cases.worldAt PInf) t Ha Et Hat 1000).
Defined.

Lemma update_timer_below_reaction_witness :
  lastDecision (this world) = Fin 0
  /\ reactionTime (this world) = Fin (0.2 + - (0.85 * 0.1))
  /\ exists fuel w' s,
      update atan2 random fuel (Fin 0.016) (Some player) world = inr (tt, w')
      /\ lastDecision (this w') = Fin s
      /\ s < 0.2 + - (0.85 * 0.1).
Proof.
  assert (El : lastDecision (this world) = Fin 0).
  { destruct Examples.driver_built as (line & _ & E & _).
    unfold world. cbn [this]. rewrite E. reflexivity. }
  assert (Er : reactionTime (this world) = Fin (0.2 + - (0.85 * 0.1))).
  { destruct Examples.driver_built as (line & _ & E & _).
    unfold world. cbn [this]. rewrite E. reflexivity. }
  split; [exact El|]. split; [exact Er|].
  destruct (update_returns atan2 random (Fin 0.016) (Some player) world
              Examples.plainCar_keeps_cursor Examples.atan2_bounded
              Examples.world_ready) as (fuel & Hf).
  destruct (Hf fuel (le_n fuel)) as (w' & E).
  destruct (update_timer_below_reaction atan2 random fuel 0 0.016
              (0.2 + - (0.85 * 0.1)) player world w' El Er E)
    as (_ & _ & Hs).
  destruct Hs as (s & Es & Hlt); [lra|].
  exists fuel, w', s. repeat split; assumption.
Defined.

Lemma update_on_empty_track_witness :
  @BaseKeepsCursor _ PlainCar.base
  /\ Track.checkpoints Cases.emptyTrack = []
  /\ exists a,
      constructor (Fin 0) (Fin 0) (Fin 20) (Fin 40) "red" (Fin 0)
        Cases.emptyTrack None = inr a
      /\ update atan2 random 5 (Fin 0.016) (Some player) (mkWorld a [] 0)
         = inl TypeError.
Proof.
  split; [exact Examples.plainCar_keeps_cursor|]. split; [reflexivity|].
  destruct (update_on_empty_track atan2 random
              (Fin 0) (Fin 0) (Fin 20) (Fin 40) "red" (Fin 0)
              Cases.emptyTrack None Examples.plainCar_keeps_cursor eq_refl)
    as (a & E & _ & _ & Hthrows).
  exists a. split; [exact E|apply Hthrows].
Defined.

Lemma isAheadOf_asymmetric_witness :
  track (Cases.driverAt (Fin 0) (Some 0%Z))
  = track (Cases.driverAt (Fin 1) (Some 1%Z))
  /\ ~ (isAheadOf (Cases.driverAt (Fin 0) (Some 0%Z))
          (car (Cases.driverAt (Fin 1) (Some 1%Z))) = inr true
        /\ isAheadOf (Cases.driverAt (Fin 1) (Some 1%Z))
             (car (Cases.driverAt (Fin 0) (Some 0%Z))) = inr true).
Proof.
  split; [reflexivity|].
  exact (proj2 (isAheadOf_asymmetric (Cases.driverAt (Fin 0) (Some 0%Z))
                  (Cases.driverAt (Fin 1) (Some 1%Z)) eq_refl)).
Defined.

Lemma getTargetRacingPoint_lookahead_witness :
  Car.x (car (Cases.driverAt (Fin 0) (Some 0%Z))) = Fin 0
  /\ Car.y (car (Cases.driverAt (Fin 0) (Some 0%Z))) = Fin 0
  /\ Forall finitePoint (racingLine (Cases.driverAt (Fin 0) (Some 0%Z)))
  /\ racingLine (Cases.driverAt (Fin 0) (Some 0%Z)) <> []
  /\ exists target,
      getTargetRacingPoint (Cases.driverAt (Fin 0) (Some 0%Z)) = Some target.
Proof.
  assert (Hf : Forall finitePoint
                 (racingLine (Cases.driverAt (Fin 0) (Some 0%Z))))
    by (repeat constructor).
  assert (Hn : racingLine (Cases.driverAt (Fin 0) (Some 0%Z)) <> [])
    by discriminate.
  split; [reflexivity|]. split; [reflexivity|].
  split; [exact Hf|]. split; [exact Hn|].
  destruct (getTargetRacingPoint_lookahead
              (Cases.driverAt (Fin 0) (Some 0%Z)) 0 0 eq_refl eq_refl Hf Hn)
    as (ci & closest & d & target & _ & _ & _ & Et & _).
  exists target. exact Et.
Defined.


Lemma constructor_parameters_witness :
  0 <= 0.85 <= 1
  /\ exists a rt,
      constructor (Fin 0) (Fin 0) (Fin 20) (Fin 40) "red" (Fin 0) course
        (Some (Fin 0.85)) = inr a
      /\ reactionTime a = Fin rt /\ 0.1 <= rt <= 0.2.
Proof.
  assert (Hr : 0 <= 0.85 <= 1) by lra.
  split; [exact Hr|].
  destruct (constructor_parameters (base := PlainCar.base)
              (Fin 0) (Fin 0) (Fin 20) (Fin 40) "red" (Fin 0) course 0.85 Hr)
    as (a & mv & rt & ps & E & _ & _ & Ert & _ & _ & _ & _ & Hrt & _).
  exists a, rt. repeat split; try assumption; apply Hrt.
Defined.

Lemma boost_meter_bounds_witness :
  GameCanvas.boost GameCanvas.initialStats = Fin 100
  /\ 0 <= 100 <= 100
  /\ exists b',
      GameCanvas.boost
        (GameCanvas.boostUpdater false GameCanvas.initialStats (Fin 0.016)
           (GameCanvas.boostUpdater true GameCanvas.initialStats (Fin 0.016)
              GameCanvas.initialStats)) = Fin b'
      /\ 0 <= b' <= 100.
Proof.
  assert (Hb : 0 <= 100 <= 100) by lra.
  split; [reflexivity|]. split; [exact Hb|].
  destruct (GameCanvasFacts.boost_meter_bounds GameCanvas.initialStats 100
              [GameCanvas.boostUpdater true GameCanvas.initialStats (Fin 0.016);
               GameCanvas.boostUpdater false GameCanvas.initialStats
                 (Fin 0.016)]
              eq_refl Hb) as (_ & _ & Hfold).
  { repeat constructor; do 3 eexists; reflexivity. }
  exact Hfold.
Defined.

Lemma near_world_ready : Ready (Cases.worldAt (Fin 0)).
Proof.
  split.
  - discriminate.
  - unfold cursorValid. cbn. eexists. reflexivity.
  - split; discriminate.
Qed.

(** With the plain car a turn keeps a finite heading finite. *)
Lemma plain_steer_heading ad col (w w' : World PlainCar.state) :
  steer ad col w = inr (tt, w') ->
  Num.is_finite (reactionTime (this w)) ->
  Num.is_finite (Car.angle (car (this w))) ->
  Num.is_finite (Car.angle (car (this w'))).
Proof.
  unfold steer, bind, read, turnRight, turnLeft, invoke, ret.
  destruct w as [[c tr df rt ld sens line ag dp ps] cs ds].
  cbn [this car reactionTime]. intros E Hrt Ha.
  destruct rt as [r| | |]; try contradiction.
  destruct (Car.angle c) as [h| | |] eqn:Eh; try contradiction.
  destruct (Num.gtb ad (Fin 0.1)); [|destruct (Num.ltb ad (Fin (-0.1)))];
    injection E as <-; destruct col;
    cbn [this car set_car Car_turnRight Car_turnLeft PlainCar.base
         PlainCar.set_angle Car.angle Num.mul Num.add Num.sub Num.neg];
    rewrite ?Eh; exact I.
Qed.

(** The rest of the pass leaves the heading of the plain car alone. *)
Lemma plain_policy_heading ad col p :
  preserves
    (keeps (fun w : World PlainCar.state => Car.angle (car (this w))))
    (bind (throttlePolicy random ad col p)
       (fun _ => adaptAggressiveness p)).
Proof.
  unfold throttlePolicy, decideDrift, throttle, decideBoost,
    adaptAggressiveness.
  cbv zeta. body.
Qed.

Lemma parked_pass fuel (w w' : World PlainCar.state) :
  Cases.parked w ->
  makeDecisions atan2 random fuel player w = inr (tt, w') ->
  Cases.parked w'.
Proof.
  intros (Hr & Hrt & Ha & Hx & Hy) E.
  pose proof (Examples.plain_pass_in_place fuel player _ _ _ E) as Hpos.
  unfold keeps in Hpos.
  pose proof (f_equal fst Hpos) as Hx'. pose proof (f_equal snd Hpos) as Hy'.
  cbn [fst snd] in Hx', Hy'.
  destruct (makeDecisions_frame _ _ _ _ _ _ E) as (Hcfg & _ & Hcur).
  specialize (Hcur Examples.plainCar_keeps_cursor).
  pose proof (config_track _ _ Hcfg) as [Htr Hline].
  assert (Hrt' : reactionTime (this w') = reactionTime (this w)).
  { unfold config in Hcfg. injection Hcfg. auto. }
  assert (Ha' : Num.is_finite (Car.angle (car (this w')))).
  { apply makeDecisions_blocks in E.
    destruct E as (ad & w1 & w2 & _ & E1 & E2 & E3).
    pose proof (plain_steer_heading _ _ _ _ E1 Hrt Ha) as H1.
    assert (E23 : bind (throttlePolicy random ad
                          (hasCollisionAhead (checkSensors (this w))) player)
                    (fun _ => adaptAggressiveness player) w1 = inr (tt, w')).
    { unfold bind at 1. rewrite E2. exact E3. }
    apply plain_policy_heading in E23. unfold keeps in E23.
    rewrite E23. exact H1. }
  split; [|split; [|split; [|split]]].
  - destruct Hr as [Hl Hc Hang]. split.
    + rewrite Hline. exact Hl.
    + unfold cursorValid. rewrite Hcur, Htr. exact Hc.
    + destruct (Car.angle (car (this w'))); try contradiction.
      split; discriminate.
  - rewrite Hrt'. exact Hrt.
  - exact Ha'.
  - rewrite Hx'. exact Hx.
  - rewrite Hy'. exact Hy.
Qed.

(** Any number of passes next to the opponent, 40 away. *)
Lemma near_passes_exist (n : nat) :
  exists w',
    nearPasses atan2 random n (Cases.worldAt (Fin 0)) w' /\ Cases.parked w'.
Proof.
  induction n as [|n (w1 & Hn & Hp)].
  - exists (Cases.worldAt (Fin 0)). split; [apply nearPasses_none|].
    split; [exact near_world_ready|]. repeat split.
  - destruct (makeDecisions_returns atan2 random player w1
                Examples.plainCar_keeps_cursor Examples.atan2_bounded
                (proj1 Hp)) as (fuel & Hf).
    destruct (Hf fuel (le_n fuel)) as (w2 & E).
    pose proof (parked_pass fuel w1 w2 Hp E) as Hp2.
    exists w2. split; [|exact Hp2].
    destruct Hp2 as (_ & _ & _ & Hx & Hy).
    apply (nearPasses_more atan2 random n _ w1 w2 fuel player 0 0 40 0);
      auto.
    replace ((40 - 0) * (40 - 0) + (0 - 0) * (0 - 0)) with (40 * 40) by lra.
    rewrite sqrt_square by lra. lra.
Qed.

Lemma aggressiveness_after_near_passes_witness :
  aggressiveness (this (Cases.worldAt (Fin 0))) = Fin 0.68
  /\ 0 <= 0.68 <= 1
  /\ exists w',
      nearPasses atan2 random 11 (Cases.worldAt (Fin 0)) w'
      /\ aggressiveness (this w') = Fin 1.
Proof.
  assert (Hg : 0 <= 0.68 <= 1) by lra.
  split; [reflexivity|]. split; [exact Hg|].
  destruct (near_passes_exist 11) as (w' & Hn & _).
  exists w'. split; [exact Hn|].
  destruct (aggressiveness_after_near_passes atan2 random 11
              (Cases.worldAt (Fin 0)) w' 0.68 eq_refl Hg Hn)
    as (g' & Eg' & _ & _ & Hone).
  rewrite Eg', (Hone (le_n 11)). reflexivity.
Defined.

Lemma makeDecisions_no_boost_witness :
  (forall n, exists r, random n = Fin r /\ 0.2 <= r)
  /\ aggressiveness (this (Cases.worldAt (Fin 0))) = Fin 0.68
  /\ exists fuel w' added,
      makeDecisions atan2 random fuel player (Cases.worldAt (Fin 0))
      = inr (tt, w')
      /\ calls w' = calls (Cases.worldAt (Fin 0)) ++ added
      /\ ~ In CActivateBoost added.
Proof.
  assert (Hrand : forall n, exists r, random n = Fin r /\ 0.2 <= r).
  { intros n. exists 0.5. split; [reflexivity|lra]. }
  assert (Eg : aggressiveness (this (Cases.worldAt (Fin 0))) = Fin 0.68)
    by reflexivity.
  split; [exact Hrand|]. split; [exact Eg|].
  destruct (makeDecisions_returns atan2 random player (Cases.worldAt (Fin 0))
              Examples.plainCar_keeps_cursor Examples.atan2_bounded
              near_world_ready) as (fuel & Hf).
  destruct (Hf fuel (le_n fuel)) as (w' & E).
  assert (Hg : 0.68 <= 1) by lra.
  destruct (makeDecisions_no_boost atan2 random fuel player
              (Cases.worldAt (Fin 0)) w' 0.68 Hrand Eg Hg E)
    as (added & C & Hno).
  exists fuel, w', added. repeat split; assumption.
Defined.

Lemma update_moves_once_witness :
  exists fuel w' before,
    update atan2 random fuel (Fin 0.016) (Some player) world = inr (tt, w')
    /\ calls w' = calls world ++ before ++ [CUpdate (Fin 0.016)]
    /\ forall dt', ~ In (CUpdate dt') before.
Proof.
  destruct (update_returns atan2 random (Fin 0.016) (Some player) world
              Examples.plainCar_keeps_cursor Examples.atan2_bounded
              Examples.world_ready) as (fuel & Hf).
  destruct (Hf fuel (le_n fuel)) as (w' & E).
  destruct (update_moves_once atan2 random fuel (Fin 0.016) (Some player)
              world w' E) as (before & C & Hno & _).
  exists fuel, w', before. repeat split; assumption.
Defined.

End MoreExamples.
